(** * Cart service: storage contract, the two stores, the wire codec and the
      request handlers

    A shallow embedding of [src/cartservice-ts/src]:

    - [storage/cart-store.ts]   : [CartItem], [Cart], the [ICartStore] interface;
    - [storage/memory-store.ts] : module [MemoryStore];
    - [storage/redis-store.ts]  : modules [Protobuf] (the codec the store
                                  calls into), [Client] and [RedisStore];
    - [handlers/cart-handler.ts]: modules [CartHandler] and [HealthHandler];
    - the constructor of [RedisStore], [utils/config.ts] and
      [initializeStorage] of [index.ts]: modules [Js], [Ioredis],
      [RedisStoreConstructor], [Config] and [Index].

    The statements use a recording store ([Spy]), the runs of sequential
    operations ([run_all], [memory_reachable], [redis_reachable]), the wire
    layout of the specification ([Layout]) and a schema-free reader of the
    wire format ([WireFormat]).

    Conventions of the embedding.

    - A JS [string] is a Rocq [string], read as the sequence of its UTF-8
      bytes (this is the form in which it reaches the wire); white space is
      the Unicode white space of [trim], in these bytes.
    - A JS [number] held by a cart is a [Z]: the stores are embedded for
      integer quantities, which is what the [int32] field of a request
      gives them.  The sum of two such numbers is their sum as integers as
      long as it stays within 2^53; the statements that depend on a sum say
      so in a hypothesis.  The 32-bit wrap-around of the wire format is
      written out where the codec applies it.  The handler of [AddItem],
      which takes any number, is embedded over a type of numbers.
    - An [async] method that may reject is a function into [result]; a
      method of a store takes the store's state and returns the new one.
    - Logging and metrics calls are omitted: they are collaborators outside
      the subsystem and do not take part in the control flow. *)

From Stdlib Require Import ZArith NArith QArith Lia List Bool.
From Stdlib Require Import Strings.String Strings.Ascii Strings.Byte.
From stdpp Require Import base option list gmap strings.

Local Open Scope Z_scope.

(** ** JavaScript values *)

(** The outcome of awaiting a promise: a value, or a thrown [Error] with its
    [message]. *)
Inductive result (A : Type) : Type :=
| Ok (a : A)
| Throw (message : string).
Arguments Ok {A} a.
Arguments Throw {A} message.

(** [a || b] on strings and on numbers: the right operand replaces a falsy
    left one (the empty string, zero). *)
Definition or_string (a b : string) : string :=
  if String.eqb a EmptyString then b else a.

Definition or_number (a b : Z) : Z :=
  if a =? 0 then b else a.

(** [String.prototype.trim]: white space is removed at both ends.  White
    space is what ECMAScript calls WhiteSpace and LineTerminator: the code
    points U+0009 to U+000D, U+0020, U+00A0, U+1680, U+2000 to U+200A,
    U+2028, U+2029, U+202F, U+205F, U+3000 and U+FEFF.  In the bytes of a
    string they take one, two or three bytes. *)
Definition is_white_space (c : ascii) : bool :=
  let n := N_of_ascii c in
  (((9 <=? n) && (n <=? 13)) || (n =? 32))%N.

Definition is_white_space_2 (c1 c2 : ascii) : bool :=
  ((N_of_ascii c1 =? 194) && (N_of_ascii c2 =? 160))%N.

Definition is_white_space_3 (c1 c2 c3 : ascii) : bool :=
  let n3 := N_of_ascii c3 in
  match N_of_ascii c1, N_of_ascii c2 with
  | 225%N, 154%N => (n3 =? 128)%N
  | 226%N, 128%N =>
      (((128 <=? n3) && (n3 <=? 138)) || (n3 =? 168) || (n3 =? 169) || (n3 =? 175))%N
  | 226%N, 129%N => (n3 =? 159)%N
  | 227%N, 128%N => (n3 =? 128)%N
  | 239%N, 187%N => (n3 =? 191)%N
  | _, _ => false
  end.

Fixpoint trimStart (s : string) : string :=
  match s with
  | EmptyString => EmptyString
  | String c1 s1 =>
      if is_white_space c1 then trimStart s1
      else
        match s1 with
        | EmptyString => s
        | String c2 s2 =>
            if is_white_space_2 c1 c2 then trimStart s2
            else
              match s2 with
              | EmptyString => s
              | String c3 s3 => if is_white_space_3 c1 c2 c3 then trimStart s3 else s
              end
        end
  end.

(** A string made of white space only, the empty one included. *)
Fixpoint white_space_only (s : string) : bool :=
  match s with
  | EmptyString => true
  | String c1 s1 =>
      if is_white_space c1 then white_space_only s1
      else
        match s1 with
        | EmptyString => false
        | String c2 s2 =>
            if is_white_space_2 c1 c2 then white_space_only s2
            else
              match s2 with
              | EmptyString => false
              | String c3 s3 =>
                  if is_white_space_3 c1 c2 c3 then white_space_only s3 else false
              end
        end
  end.

(** The white space at the end is the longest suffix made of white space
    only. *)
Fixpoint trimEnd (s : string) : string :=
  if white_space_only s then EmptyString
  else match s with
       | EmptyString => EmptyString
       | String c s' => String c (trimEnd s')
       end.

Definition trim (s : string) : string := trimEnd (trimStart s).

(** ** storage/cart-store.ts *)

Record CartItem : Type := mkCartItem {
  productId : string;
  quantity : Z;
}.

Record Cart : Type := mkCart {
  userId : string;
  items : list CartItem;
}.

Module CartStore.

(** [interface ICartStore], over the state [S] of the backend. *)
Class ICartStore (S : Type) : Type := {
  addItem : string -> string -> Z -> S -> result unit * S;
  getCart : string -> S -> result Cart * S;
  emptyCart : string -> S -> result unit * S;
  ping : S -> result bool * S;
}.

End CartStore.

(** The product identifiers of a list of items, in order. *)
Definition productIds (l : list CartItem) : list string := map productId l.

(** The item lookup and update that both stores perform in [addItem]:
    [items.find(item => item.productId === productId)], then either
    [existingItem.quantity += quantity] on the item found, which is the
    first match and is updated in place, or [items.push({productId, quantity})].
    The sum is that of the integers: it is the sum of the two numbers as
    long as it stays within 2^53. *)
Definition same_product (p : string) (item : CartItem) : bool :=
  String.eqb (productId item) p.

Fixpoint increment (p : string) (q : Z) (l : list CartItem) : list CartItem :=
  match l with
  | [] => []
  | item :: rest =>
      if same_product p item
      then mkCartItem (productId item) (quantity item + q) :: rest
      else item :: increment p q rest
  end.

Definition merge (p : string) (q : Z) (l : list CartItem) : list CartItem :=
  match find (same_product p) l with
  | Some _ => increment p q l
  | None => l ++ [mkCartItem p q]
  end.

(** ** storage/memory-store.ts *)

Module MemoryStore.

(** [private carts: Map<string, Cart>] *)
Abbreviation t := (gmap string Cart).

Definition init : t := ∅.

Definition addItem (u p : string) (q : Z) (carts : t) : result unit * t :=
  let cart := default (mkCart u []) (carts !! u) in
  let cart' := mkCart (userId cart) (merge p q (items cart)) in
  (Ok tt, <[u := cart']> carts).

Definition getCart (u : string) (carts : t) : result Cart * t :=
  match carts !! u with
  | Some cart => (Ok cart, carts)
  | None => (Ok (mkCart u []), carts)
  end.

Definition emptyCart (u : string) (carts : t) : result unit * t :=
  (Ok tt, <[u := mkCart u []]> carts).

Definition ping (carts : t) : result bool * t := (Ok true, carts).

#[global] Instance store : CartStore.ICartStore t := {
  CartStore.addItem := addItem;
  CartStore.getCart := getCart;
  CartStore.emptyCart := emptyCart;
  CartStore.ping := ping;
}.

End MemoryStore.

(** ** The binary codec used by storage/redis-store.ts

    [RedisStore] serializes with the protobufjs reflection codec for the
    message type [hipstershop.Cart] of [proto/demo.proto]:
<<
    message Cart     { string user_id = 1;    repeated CartItem items = 2; }
    message CartItem { string product_id = 1; int32 quantity = 2; }
>>
    (the two messages are quoted in the design document of the rewrite).
    The module below writes out what that codec does for this schema, in
    the terms of its [Writer] and [Reader]: base-128 varints, field tags
    [(id << 3 | wireType)], length-delimited strings and embedded messages,
    and 32-bit truncation of [int32] values.  The encoder writes every
    field of the object it is given, also one that holds its default value
    (the empty string, zero); the decoder gives an absent field its default
    value.
    Lengths and tags are far below 2^32 for every JS string and Buffer, so
    their varints are neither truncated when written nor when read.  A
    string being its UTF-8 bytes, the conversion between the two is the
    identity.  The text of an error message (offsets and the like) is
    abbreviated. *)

Definition Buffer : Type := list byte.

#[global] Instance result_ret : MRet result := fun A a => Ok a.
#[global] Instance result_bind : MBind result := fun A B f r =>
  match r with Ok a => f a | Throw e => Throw e end.

Module Protobuf.

(** [value | 0]: the signed 32-bit reading of an integer. *)
Definition to_int32 (v : Z) : Z := (v + 2 ^ 31) mod 2 ^ 32 - 2 ^ 31.

Module Writer.

Definition byte_of_N (n : N) : byte :=
  match Byte.of_N (n mod 256) with Some b => b | None => x00 end.

Fixpoint write_varint (fuel : nat) (n : N) : Buffer :=
  match fuel with
  | O => [byte_of_N n]
  | S fuel' =>
      if (n <? 128)%N then [byte_of_N n]
      else byte_of_N (n mod 128 + 128) :: write_varint fuel' (n / 128)
  end.

Definition varint (n : N) : Buffer := write_varint (N.to_nat (N.size n)) n.

(** [Writer.uint32]: [value >>> 0], then a varint. *)
Definition uint32 (v : Z) : Buffer := varint (Z.to_N (v mod 2 ^ 32)).

(** [Writer.int32]: a negative value is written as its 64-bit two's
    complement, a non-negative one through [uint32].  This is what the
    library writes for the values from -2^63 on. *)
Definition int32 (v : Z) : Buffer :=
  if v <? 0 then varint (Z.to_N (v mod 2 ^ 64)) else uint32 v.

(** [Writer.string]: the byte length, then the bytes. *)
Definition string (s : String.string) : Buffer :=
  let bytes := list_byte_of_string s in
  varint (N.of_nat (length bytes)) ++ bytes.

(** [Writer.fork() ... ldelim()]: an embedded message, length first. *)
Definition ldelim (body : Buffer) : Buffer :=
  varint (N.of_nat (length body)) ++ body.

(** [w.uint32((field.id << 3 | wireType) >>> 0)] *)
Definition tag (id wireType : N) : Buffer :=
  uint32 (Z.of_N (N.lor (N.shiftl id 3) wireType)).

End Writer.

Definition CartItem_encode (m : CartItem) : Buffer :=
  Writer.tag 1 2 ++ Writer.string (productId m)
  ++ Writer.tag 2 0 ++ Writer.int32 (quantity m).

Definition Cart_encode (m : Cart) : Buffer :=
  Writer.tag 1 2 ++ Writer.string (userId m)
  ++ flat_map (fun item => Writer.tag 2 2 ++ Writer.ldelim (CartItem_encode item))
              (items m).

(** [Type.verify]: [userId] and [productId] must be strings, [items] an
    array and [quantity] an integer, of any size.  Every value of the record
    types above is of that form, so no error message is returned: the
    failure of [verify] on a quantity that is not an integer is outside the
    carts of this file. *)
Definition verify (m : Cart) : option string := None.

Module Reader.

Definition indexOutOfRange : String.string := "index out of range".
Definition invalidWireType : String.string := "invalid wire type".

(** [Reader.uint32], for tags and lengths: a varint.  The reader of the
    library keeps 32 bits and reads five bytes at most, passing over five
    more when the fifth announces more; here the varint is read whole, which
    is the same for the tags, the lengths below 2^32 and the ten bytes of a
    negative [int32] that the writer produces. *)
Fixpoint uint32 (bs : Buffer) : result (N * Buffer) :=
  match bs with
  | [] => Throw indexOutOfRange
  | b :: rest =>
      let n := Byte.to_N b in
      if (n <? 128)%N then Ok (n, rest)
      else '(m, rest') ← uint32 rest; Ok ((n - 128) + 128 * m, rest')%N
  end.

(** [Reader.int32]: [this.uint32() | 0]. *)
Definition int32 (bs : Buffer) : result (Z * Buffer) :=
  '(n, rest) ← uint32 bs; Ok (to_int32 (Z.of_N n), rest).

(** [Reader.bytes]: the announced length must be there,
    [if (end > this.len) throw indexOutOfRange(this, length)]. *)
Definition bytes (bs : Buffer) : result (Buffer * Buffer) :=
  '(n, rest) ← uint32 bs;
  if (N.of_nat (length rest) <? n)%N then Throw indexOutOfRange
  else Ok (take (N.to_nat n) rest, drop (N.to_nat n) rest).

(** [BufferReader.string], the reader of the [Buffer] that the client
    returns: [utf8Slice(this.pos, this.pos = Math.min(this.pos + len,
    this.len))].  A length that passes the end of the buffer is not an
    error: the string stops at the end.  The bytes are taken as the UTF-8
    of a string; the replacement of bytes that are not is not modelled. *)
Definition string (bs : Buffer) : result (String.string * Buffer) :=
  '(n, rest) ← uint32 bs;
  Ok (string_of_list_byte (take (N.to_nat n) rest), drop (N.to_nat n) rest).

(** [Reader.skip()] over a varint and [Reader.skip(length)]. *)
Fixpoint skip_varint (bs : Buffer) : result Buffer :=
  match bs with
  | [] => Throw indexOutOfRange
  | b :: rest => if (Byte.to_N b <? 128)%N then Ok rest else skip_varint rest
  end.

Definition skip (n : N) (bs : Buffer) : result Buffer :=
  if (N.of_nat (length bs) <? n)%N then Throw indexOutOfRange
  else Ok (drop (N.to_nat n) bs).

(** [Reader.skipType].  Wire type 3 opens a group, which is skipped
    field by field up to its end marker (wire type 4).  Every step
    consumes a byte, so [fuel] above the length of the buffer is never
    used up. *)
Fixpoint skipType (fuel : nat) (wireType : N) (bs : Buffer) : result Buffer :=
  match fuel with
  | O => Throw indexOutOfRange
  | S fuel' =>
      match wireType with
      | 0%N => skip_varint bs
      | 1%N => skip 8 bs
      | 2%N => '(n, rest) ← uint32 bs; skip n rest
      | 3%N =>
          '(t, rest) ← uint32 bs;
          if (t mod 8 =? 4)%N then Ok rest
          else rest' ← skipType fuel' (t mod 8) rest; skipType fuel' 3 rest'
      | 5%N => skip 4 bs
      | _ => Throw invalidWireType
      end
  end.

End Reader.

(** The generated decoder of [CartItem]: [switch (t >>> 3)] on each tag,
    until the position reaches the end [c = r.pos + l] of the embedded
    message; [left] is the distance to that end. *)
Definition CartItem_field (t : N) (bs : Buffer) (m : CartItem)
  : result (CartItem * Buffer) :=
  match (t / 8)%N with
  | 1%N => '(s, rest) ← Reader.string bs; Ok (mkCartItem s (quantity m), rest)
  | 2%N => '(q, rest) ← Reader.int32 bs; Ok (mkCartItem (productId m) q, rest)
  | _ => rest ← Reader.skipType (S (length bs)) (t mod 8) bs; Ok (m, rest)
  end.

Fixpoint CartItem_decode (fuel : nat) (left : Z) (bs : Buffer) (m : CartItem)
  : result (CartItem * Buffer) :=
  match fuel with
  | O => Throw Reader.indexOutOfRange
  | S fuel' =>
      if left <=? 0 then Ok (m, bs)
      else
        '(t, r1) ← Reader.uint32 bs;
        '(m', r2) ← CartItem_field t r1 m;
        CartItem_decode fuel' (left - (Z.of_nat (length bs) - Z.of_nat (length r2))) r2 m'
  end.

(** The generated decoder of [Cart], up to the end of the buffer. *)
Fixpoint Cart_decode (fuel : nat) (bs : Buffer) (m : Cart) : result Cart :=
  match fuel with
  | O => Throw Reader.indexOutOfRange
  | S fuel' =>
      match bs with
      | [] => Ok m
      | _ =>
          '(t, r1) ← Reader.uint32 bs;
          match (t / 8)%N with
          | 1%N =>
              '(s, rest) ← Reader.string r1;
              Cart_decode fuel' rest (mkCart s (items m))
          | 2%N =>
              '(l, r2) ← Reader.uint32 r1;
              '(item, rest) ← CartItem_decode (S (length r2)) (Z.of_N l) r2
                                 (mkCartItem EmptyString 0);
              Cart_decode fuel' rest (mkCart (userId m) (items m ++ [item]))
          | _ =>
              rest ← Reader.skipType (S (length r1)) (t mod 8) r1;
              Cart_decode fuel' rest m
          end
      end
  end.

Definition encode (m : Cart) : Buffer := Cart_encode m.

Definition decode (buffer : Buffer) : result Cart :=
  Cart_decode (S (length buffer)) buffer (mkCart EmptyString []).

End Protobuf.

(** ** The key-value service behind storage/redis-store.ts

    The ioredis client and the server it talks to, as the store sees them:
    the keys with their values, the fault (if any) with which a command is
    rejected once the retries are exhausted, and the server's reply to
    [PING]. *)

(** The client and the key space behind it.  [fault] is the error with
    which the client rejects a command while the backend cannot be reached:
    in that state every command is rejected, and with no fault every command
    is carried out.  A backend that answers one command and rejects the
    next is two states of this record. *)
Module Client.

Record t : Type := mk {
  keys : gmap string Buffer;
  fault : option string;
  pong : string;
}.

Definition getBuffer (key : string) (c : t) : result (option Buffer) * t :=
  match fault c with
  | Some e => (Throw e, c)
  | None => (Ok (keys c !! key), c)
  end.

Definition set (key : string) (value : Buffer) (c : t) : result unit * t :=
  match fault c with
  | Some e => (Throw e, c)
  | None => (Ok tt, mk (<[key := value]> (keys c)) (fault c) (pong c))
  end.

Definition ping (c : t) : result string * t :=
  match fault c with
  | Some e => (Throw e, c)
  | None => (Ok (pong c), c)
  end.

End Client.

(** ** storage/redis-store.ts *)

Module RedisStore.

Abbreviation t := Client.t.

Definition init : t := Client.mk ∅ None "PONG".

Definition serializeCart (cart : Cart) : result Buffer :=
  let protoCart :=
    mkCart (userId cart)
           (map (fun item => mkCartItem (productId item) (quantity item)) (items cart)) in
  match Protobuf.verify protoCart with
  | Some errMsg => Throw ("Invalid cart message: " +:+ errMsg)
  | None => Ok (Protobuf.encode protoCart)
  end.

Definition deserializeCart (buffer : Buffer) : result Cart :=
  message ← Protobuf.decode buffer;
  Ok (mkCart (or_string (userId message) "")
             (map (fun item => mkCartItem (or_string (productId item) "")
                                          (or_number (quantity item) 0))
                  (items message))).

Definition getCartKey (u : string) : string := "cart:" +:+ u.

(** [catch (error) { ... throw new Error(`Can't access cart storage: ${message}`) }] *)
Definition storage_error (message : string) : string :=
  "Can't access cart storage: " +:+ message.

Definition rethrow {A} (r : result A) : result A :=
  match r with
  | Ok a => Ok a
  | Throw message => Throw (storage_error message)
  end.

Definition getCart (u : string) (c : t) : result Cart * t :=
  let key := getCartKey u in
  let '(data, c1) := Client.getBuffer key c in
  (rethrow (data ← data;
            match data with
            | None => Ok (mkCart u [])
            | Some data => deserializeCart data
            end), c1).

Definition addItem (u p : string) (q : Z) (c : t) : result unit * t :=
  let key := getCartKey u in
  let '(cart, c1) := getCart u c in
  match cart with
  | Throw e => (rethrow (Throw e), c1)
  | Ok cart =>
      let cart' := mkCart (userId cart) (merge p q (items cart)) in
      match serializeCart cart' with
      | Throw e => (rethrow (Throw e), c1)
      | Ok serialized =>
          let '(r, c2) := Client.set key serialized c1 in (rethrow r, c2)
      end
  end.

Definition emptyCart (u : string) (c : t) : result unit * t :=
  let key := getCartKey u in
  let emptyCart := mkCart u [] in
  match serializeCart emptyCart with
  | Throw e => (rethrow (Throw e), c)
  | Ok serialized =>
      let '(r, c1) := Client.set key serialized c in (rethrow r, c1)
  end.

Definition ping (c : t) : result bool * t :=
  let '(r, c1) := Client.ping c in
  match r with
  | Ok result => (Ok (String.eqb result "PONG"), c1)
  | Throw _ => (Ok false, c1)
  end.

#[global] Instance store : CartStore.ICartStore t := {
  CartStore.addItem := addItem;
  CartStore.getCart := getCart;
  CartStore.emptyCart := emptyCart;
  CartStore.ping := ping;
}.

End RedisStore.

(** ** handlers/cart-handler.ts *)

Module Grpc.

Inductive status : Type := OK | INVALID_ARGUMENT | FAILED_PRECONDITION.

(** What a handler passes to its [callback]: a response value, or a
    status object [{code, message}]. *)
Inductive reply (A : Type) : Type :=
| Value (a : A)
| Error (code : status) (message : string).
Arguments Value {A} a.
Arguments Error {A} code message.

Definition code_of {A} (r : reply A) : status :=
  match r with Value _ => OK | Error code _ => code end.

End Grpc.

(** The request messages.  A field that the caller left out is [None]. *)
Module Request.

(** The [quantity] of an item is a JS [number].  A request that reaches
    the service through gRPC holds the value of an [int32] field, an
    integer; the handler itself takes what it is called with.  [N] is the
    type of the numbers a request holds; [Item] and [AddItem] are the
    requests with integer quantities. *)
Record ItemOf (N : Type) : Type := mkItem {
  product_id : option string;
  quantity : option N;
}.
Arguments mkItem {N} product_id quantity.
Arguments product_id {N} _.
Arguments quantity {N} _.

Record AddItemOf (N : Type) : Type := mkAddItem {
  user_id : option string;
  item : option (ItemOf N);
}.
Arguments mkAddItem {N} user_id item.
Arguments user_id {N} _.
Arguments item {N} _.

Abbreviation Item := (ItemOf Z).
Abbreviation AddItem := (AddItemOf Z).

(** [GetCartRequest] and [EmptyCartRequest] carry the [user_id] only. *)
Record User : Type := mkUser {
  user : option string;
}.

End Request.

(** The two tests that the handler of [AddItem] makes on a quantity,
    [!quantity] and [quantity <= 0], for the integers and for the
    rationals (a number that is not an integer, such as 1.5, is one). *)
Module Number.

Class t (N : Type) : Type := {
  falsy : N -> bool;
  le_zero : N -> bool;
}.

#[global] Instance integer : t Z := {
  falsy q := q =? 0;
  le_zero q := q <=? 0;
}.

#[global] Instance rational : t Q := {
  falsy q := Qeq_bool q (inject_Z 0);
  le_zero q := Qle_bool q (inject_Z 0);
}.

End Number.

Module CartHandler.

Import Grpc.

Definition failed (e : string) : string :=
  "Can't access cart storage: " +:+ e.

Section AddItem.

(** The handler of [AddItem] over the numbers [N] and over the [addItem]
    of a store that takes them. *)
Context {N S : Type} `{Number.t N}.
Context (store_addItem : string -> string -> N -> S -> result unit * S).

Definition addItem_with (request : Request.AddItemOf N) (st : S) : reply unit * S :=
  match Request.user_id request with
  | None => (Error INVALID_ARGUMENT "user_id is required", st)
  | Some user_id =>
      if String.eqb user_id "" || String.eqb (trim user_id) ""
      then (Error INVALID_ARGUMENT "user_id is required", st)
      else
        match Request.item request with
        | None => (Error INVALID_ARGUMENT "item is required", st)
        | Some item =>
            match Request.product_id item with
            | None => (Error INVALID_ARGUMENT "product_id is required", st)
            | Some product_id =>
                if String.eqb product_id "" || String.eqb (trim product_id) ""
                then (Error INVALID_ARGUMENT "product_id is required", st)
                else
                  match Request.quantity item with
                  | None =>
                      (Error INVALID_ARGUMENT "quantity must be greater than 0", st)
                  | Some quantity =>
                      if Number.falsy quantity || Number.le_zero quantity
                      then (Error INVALID_ARGUMENT "quantity must be greater than 0", st)
                      else
                        let '(r, st') :=
                          store_addItem user_id product_id quantity st in
                        match r with
                        | Ok _ => (Value tt, st')
                        | Throw e => (Error FAILED_PRECONDITION (failed e), st')
                        end
                  end
            end
        end
  end.

End AddItem.

Section Handlers.

Context {S : Type} `{store : CartStore.ICartStore S}.

(** The handler over a store of this file, whose quantities are integers. *)
Definition addItem (request : Request.AddItem) (st : S) : reply unit * S :=
  addItem_with CartStore.addItem request st.

Definition getCart (request : Request.User) (st : S) : reply Cart * S :=
  match Request.user request with
  | None => (Error INVALID_ARGUMENT "user_id is required", st)
  | Some user_id =>
      if String.eqb user_id "" || String.eqb (trim user_id) ""
      then (Error INVALID_ARGUMENT "user_id is required", st)
      else
        let '(r, st') := CartStore.getCart user_id st in
        match r with
        | Ok cart =>
            let response :=
              mkCart (userId cart)
                     (map (fun item => mkCartItem (productId item) (quantity item))
                          (items cart)) in
            (Value response, st')
        | Throw e => (Error FAILED_PRECONDITION (failed e), st')
        end
  end.

Definition emptyCart (request : Request.User) (st : S) : reply unit * S :=
  match Request.user request with
  | None => (Error INVALID_ARGUMENT "user_id is required", st)
  | Some user_id =>
      if String.eqb user_id "" || String.eqb (trim user_id) ""
      then (Error INVALID_ARGUMENT "user_id is required", st)
      else
        let '(r, st') := CartStore.emptyCart user_id st in
        match r with
        | Ok _ => (Value tt, st')
        | Throw e => (Error FAILED_PRECONDITION (failed e), st')
        end
  end.

End Handlers.

End CartHandler.

Module HealthHandler.

Import Grpc.

Inductive ServingStatus : Type := UNKNOWN | SERVING | NOT_SERVING.

Definition check {S : Type} `{store : CartStore.ICartStore S} (st : S)
  : reply ServingStatus * S :=
  let '(r, st') := CartStore.ping st in
  match r with
  | Ok isStorageHealthy =>
      if isStorageHealthy : bool
      then (Value SERVING, st')
      else (Value NOT_SERVING, st')
  | Throw _ => (Value NOT_SERVING, st')
  end.

End HealthHandler.

(** ** Notions used by the statements *)

(** A store that records every call made to it before passing it on.  The
    handlers are run against it to see which storage calls they make. *)
Module Spy.

Inductive call : Type :=
| AddItem (u p : string) (q : Z)
| GetCart (u : string)
| EmptyCart (u : string)
| Ping.

Record t (S : Type) : Type := mk { inner : S; calls : list call }.
Arguments mk {S} inner calls.
Arguments inner {S} _.
Arguments calls {S} _.

Definition record {S A} (c : call) (log : list call) (r : A * S) : A * t S :=
  (r.1, mk r.2 (log ++ [c])).

#[global] Instance store {S} `{CartStore.ICartStore S} : CartStore.ICartStore (t S) := {
  CartStore.addItem u p q st :=
    record (AddItem u p q) (calls st) (CartStore.addItem u p q (inner st));
  CartStore.getCart u st :=
    record (GetCart u) (calls st) (CartStore.getCart u (inner st));
  CartStore.emptyCart u st :=
    record (EmptyCart u) (calls st) (CartStore.emptyCart u (inner st));
  CartStore.ping st :=
    record Ping (calls st) (CartStore.ping (inner st));
}.

(** The precondition of the storage contract on [addItem]. *)
Definition positive_quantity (c : call) : Prop :=
  match c with
  | AddItem _ _ q => 0 < q
  | _ => True
  end.

(** The same for a handler of [AddItem] run over any numbers [N]: a store
    that keeps the arguments of every [addItem] it receives. *)
Definition received (N : Type) : Type := list (string * string * N).

Definition receive {N : Type} (u p : string) (q : N) (log : received N)
  : result unit * received N :=
  (Ok tt, log ++ [(u, p, q)]).

End Spy.

(** Sequential use of a store: one operation runs to completion before the
    next starts. *)
Inductive operation : Type :=
| AddItem (u p : string) (q : Z)
| GetCart (u : string)
| EmptyCart (u : string).

Definition run {S : Type} `{CartStore.ICartStore S} (o : operation) (st : S) : S :=
  match o with
  | AddItem u p q => (CartStore.addItem u p q st).2
  | GetCart u => (CartStore.getCart u st).2
  | EmptyCart u => (CartStore.emptyCart u st).2
  end.

Definition run_all {S : Type} `{CartStore.ICartStore S} (ops : list operation) (st : S) : S :=
  foldl (fun st o => run o st) st ops.

(** The states of the Local Store reached from the empty map. *)
Inductive memory_reachable : MemoryStore.t -> Prop :=
| memory_init : memory_reachable MemoryStore.init
| memory_step o st : memory_reachable st -> memory_reachable (run o st).

(** The states of the Remote Store reached from the empty key space, where
    between two operations the connection may fail or recover. *)
Inductive redis_reachable : RedisStore.t -> Prop :=
| redis_init : redis_reachable RedisStore.init
| redis_step o st : redis_reachable st -> redis_reachable (run o st)
| redis_env st fault pong :
    redis_reachable st -> redis_reachable (Client.mk (Client.keys st) fault pong).

(** What the specification calls a missing or blank field, and a request
    that fails validation. *)
Definition blank (s : string) : bool := white_space_only s.

Definition missing_or_blank (o : option string) : bool :=
  match o with None => true | Some s => blank s end.

Definition missing_or_not_positive (o : option Z) : bool :=
  match o with None => true | Some q => q <=? 0 end.

Definition invalid_item (o : option Request.Item) : bool :=
  match o with
  | None => true
  | Some item =>
      missing_or_blank (Request.product_id item)
      || missing_or_not_positive (Request.quantity item)
  end.

Definition invalid_addItem (request : Request.AddItem) : bool :=
  missing_or_blank (Request.user_id request) || invalid_item (Request.item request).

(** The items of a cart other than those of product [p], in order. *)
Definition others (p : string) (l : list CartItem) : list CartItem :=
  filter (fun item => productId item ≠ p) l.

(** The items of a cart for product [p]. *)
Definition entries (p : string) (l : list CartItem) : list CartItem :=
  filter (fun item => productId item = p) l.

(** Quantities that the [int32] field of the wire format holds. *)
Definition int32_range (q : Z) : Prop := - 2 ^ 31 <= q < 2 ^ 31.

Definition wire_cart (c : Cart) : Prop :=
  Forall (fun item => int32_range (quantity item)) (items c).

(** The item and the cart that the decoder returns for a written one: a
    quantity comes back as the 32-bit integer that the wire holds. *)
Definition wire_item (item : CartItem) : CartItem :=
  mkCartItem (productId item) (Protobuf.to_int32 (quantity item)).

Definition wire (c : Cart) : Cart :=
  mkCart (userId c) (map wire_item (items c)).

(** One item of a cart as [Cart_encode] writes it. *)
Definition item_field (item : CartItem) : Buffer :=
  Protobuf.Writer.tag 2 2 ++ Protobuf.Writer.ldelim (Protobuf.CartItem_encode item).

(** The cart that the Local Store holds for [u]: the record, or the empty
    cart when there is none. *)
Definition memory_cart (carts : gmap string Cart) (u : string) : Cart :=
  default (mkCart u []) (carts !! u).

(** Every cart of the Local Store has distinct products. *)
Definition memory_inv (carts : gmap string Cart) : Prop :=
  forall u cart, carts !! u = Some cart -> NoDup (productIds (items cart)).

(** The cart that [addItem] writes, and the key space after a write. *)
Definition merged (cart : Cart) (p : string) (q : Z) : Cart :=
  mkCart (userId cart) (merge p q (items cart)).

Definition written (key : string) (b : Buffer) (c : Client.t) : Client.t :=
  Client.mk (<[key := b]> (Client.keys c)) (Client.fault c) (Client.pong c).

(** Every value in the key space decodes to a cart with distinct products. *)
Definition redis_inv (c : Client.t) : Prop :=
  forall k b, Client.keys c !! k = Some b ->
    exists cart, Protobuf.decode b = Ok cart /\ NoDup (productIds (items cart)).

(** What the handlers answer to a value or a failure of the store. *)
Definition answer {S A B : Type} (f : A -> B) (r : result A * S) : Grpc.reply B * S :=
  match r.1 with
  | Ok a => (Grpc.Value (f a), r.2)
  | Throw e => (Grpc.Error Grpc.FAILED_PRECONDITION (CartHandler.failed e), r.2)
  end.

(** The wire layout of section 6 of the specification,
<<
    Cart    { field 1: string userId;  field 2: repeated CartItem items }
    CartItem{ field 1: string productId; field 2: int32 quantity }
>>
    in the protocol buffers encoding: a field is its key byte, the field
    number times eight plus the wire type (0 for a varint, 2 for a
    length-delimited value), followed by the value; a string and an embedded
    message are preceded by their length. *)
Module Layout.

Definition key (field wire_type : N) : byte :=
  Protobuf.Writer.byte_of_N (field * 8 + wire_type).

Definition string_field (field : N) (s : string) : Buffer :=
  key field 2
  :: Protobuf.Writer.varint (N.of_nat (length (list_byte_of_string s)))
  ++ list_byte_of_string s.

Definition int32_field (field : N) (v : Z) : Buffer :=
  key field 0 :: Protobuf.Writer.int32 v.

Definition message_field (field : N) (body : Buffer) : Buffer :=
  key field 2 :: Protobuf.Writer.varint (N.of_nat (length body)) ++ body.

Definition CartItem (item : CartItem) : Buffer :=
  string_field 1 (productId item) ++ int32_field 2 (quantity item).

Definition Cart (cart : Cart) : Buffer :=
  string_field 1 (userId cart)
  ++ flat_map (fun item => message_field 2 (CartItem item)) (items cart).

End Layout.

(** The protocol buffers wire format itself, without any schema: a message
    is a sequence of fields, each a key (the field number times eight plus
    the wire type) and a value, which is a varint for wire type 0 and a
    length followed by that many bytes for wire type 2.  [fields] reads a
    buffer as such a sequence. *)
Module WireFormat.

Inductive value : Type :=
| Varint (n : N)
| Bytes (b : Buffer).

Record field : Type := mk {
  number : N;
  wire_type : N;
  payload : value;
}.

Fixpoint scan (fuel : nat) (bs : Buffer) : result (list field) :=
  match fuel with
  | O => Throw Protobuf.Reader.indexOutOfRange
  | S fuel' =>
      match bs with
      | [] => Ok []
      | _ =>
          '(t, r1) ← Protobuf.Reader.uint32 bs;
          if (t mod 8 =? 0)%N then
            '(n, r2) ← Protobuf.Reader.uint32 r1;
            rest ← scan fuel' r2;
            Ok (mk (t / 8) 0 (Varint n) :: rest)
          else if (t mod 8 =? 2)%N then
            '(b, r2) ← Protobuf.Reader.bytes r1;
            rest ← scan fuel' r2;
            Ok (mk (t / 8) 2 (Bytes b) :: rest)
          else Throw Protobuf.Reader.invalidWireType
      end
  end.

Definition fields (bs : Buffer) : result (list field) := scan (S (length bs)) bs.

(** The varint of an [int32] value: its 64-bit two's complement. *)
Definition int32 (v : Z) : value := Varint (Z.to_N (v mod 2 ^ 64)).

Definition string (s : string) : value := Bytes (list_byte_of_string s).

End WireFormat.

(** ** Notions used by the further properties *)

(** The quantity that a list of items holds for product [p]: the sum over
    its entries for [p] (no entry, no quantity). *)
Definition quantity_of (p : string) (l : list CartItem) : Z :=
  foldr (fun item acc => quantity item + acc) 0 (entries p l).

(** What a run of operations adds up to for product [p] of user [u]: the
    quantities added since the cart of [u] was last emptied; and whether the
    run leaves an entry for [p] in that cart. *)
Definition tally_step (u p : string) (acc : Z) (o : operation) : Z :=
  match o with
  | AddItem u' p' q => if decide (u' = u /\ p' = p) then acc + q else acc
  | GetCart _ => acc
  | EmptyCart u' => if decide (u' = u) then 0 else acc
  end.

Definition tally (u p : string) (ops : list operation) : Z :=
  foldl (tally_step u p) 0 ops.

Definition held_step (u p : string) (acc : bool) (o : operation) : bool :=
  match o with
  | AddItem u' p' _ => if decide (u' = u /\ p' = p) then true else acc
  | GetCart _ => acc
  | EmptyCart u' => if decide (u' = u) then false else acc
  end.

Definition held (u p : string) (ops : list operation) : bool :=
  foldl (held_step u p) false ops.

(** The runs whose arithmetic is exact.  Every quantity added is above
    zero, as the contract of [addItem] requires, and the quantities added in
    the whole run sum to at most 2^53: no sum that the stores form in such a
    run leaves the integers that a JS number holds exactly. *)
Definition added (o : operation) : Z :=
  match o with AddItem _ _ q => q | _ => 0 end.

Definition adds_positive (o : operation) : Prop :=
  match o with AddItem _ _ q => 0 < q | _ => True end.

Definition exact_run (ops : list operation) : Prop :=
  Forall adds_positive ops /\ foldr (fun o acc => added o + acc) 0 ops <= 2 ^ 53.

(** The Remote Store follows the Local Store through the wire: the backend
    answers, and what it returns for a user is the cart of the Local Store
    with its quantities read as 32-bit integers. *)
Definition follows (carts : gmap string Cart) (c : Client.t) : Prop :=
  Client.fault c = None
  /\ forall u, (RedisStore.getCart u c).1 = Ok (wire (memory_cart carts u)).

(** Every record of the Local Store carries the user it is stored under. *)
Definition memory_owned (carts : gmap string Cart) : Prop :=
  forall u cart, carts !! u = Some cart -> userId cart = u.

(** Every key of the Remote Store is the key of a user, and its value
    decodes to a cart of that user. *)
Definition redis_owned (c : Client.t) : Prop :=
  forall k b, Client.keys c !! k = Some b ->
    exists u cart, k = RedisStore.getCartKey u
                   /\ Protobuf.decode b = Ok cart /\ userId cart = u.


(** ** Start-up: [utils/config.ts], the constructor of [RedisStore] and
       [initializeStorage] of [index.ts]

    The built-in functions that this code calls are written out for byte
    strings.  A number read by [parseInt] is the integer that the digits
    denote, or [None] for [NaN]; the rounding of integers above 2^53 to a
    double is not modelled (every such port is rejected by [loadConfig]). *)
Module Js.

(** [String.prototype.split(separator)] for a separator of one character:
    the pieces between the separators, at least one. *)
Fixpoint split (separator : ascii) (s : string) : list string :=
  match s with
  | EmptyString => [EmptyString]
  | String c s' =>
      if Ascii.eqb c separator then EmptyString :: split separator s'
      else match split separator s' with
           | piece :: pieces => String c piece :: pieces
           | [] => [String c EmptyString]
           end
  end.

Definition is_digit (c : ascii) : bool :=
  let n := N_of_ascii c in ((48 <=? n) && (n <=? 57))%N.

(** The longest prefix of decimal digits, and the integer it denotes. *)
Fixpoint digits (s : string) : string :=
  match s with
  | EmptyString => EmptyString
  | String c s' => if is_digit c then String c (digits s') else EmptyString
  end.

Definition value (ds : string) : Z :=
  fold_left (fun acc c => 10 * acc + (Z.of_N (N_of_ascii c) - 48))
            (list_ascii_of_string ds) 0.

(** [parseInt(s, 10)]: leading white space is skipped, a sign is read, then
    the longest prefix of digits; without a digit the result is [NaN]. *)
Definition parseInt (s : string) : option Z :=
  let '(sign, rest) :=
    match trimStart s with
    | String "-" rest => (-1, rest)
    | String "+" rest => (1, rest)
    | rest => (1, rest)
    end in
  let ds := digits rest in
  if String.eqb ds EmptyString then None else Some (sign * value ds).

(** [String.prototype.toLowerCase] on the letters of ASCII.  The bytes of
    other characters are left as they are: no letter outside ASCII has a
    lower case made of the letters of the log levels, so the test of
    [loadConfig] and the level it returns are not affected. *)
Definition lower (c : ascii) : ascii :=
  let n := N_of_ascii c in
  if ((65 <=? n) && (n <=? 90))%N then ascii_of_N (n + 32) else c.

Fixpoint toLowerCase (s : string) : string :=
  match s with
  | EmptyString => EmptyString
  | String c s' => String (lower c) (toLowerCase s')
  end.

(** [Array.prototype.join] and [Array.prototype.includes] on strings. *)
Fixpoint join (separator : string) (l : list string) : string :=
  match l with
  | [] => EmptyString
  | [s] => s
  | s :: rest => s +:+ separator +:+ join separator rest
  end.

Definition includes (l : list string) (s : string) : bool :=
  existsb (String.eqb s) l.

(** An environment variable in a condition or on the left of [||]: unset
    and empty are falsy. *)
Definition truthy (v : option string) : option string :=
  match v with
  | Some s => if String.eqb s EmptyString then None else Some s
  | None => None
  end.

End Js.

(** The options that the constructor of [RedisStore] passes to the client. *)
Module Ioredis.

Record options : Type := mkOptions {
  host : string;
  port : Z;
  retryStrategy : Z -> Z;
  maxRetriesPerRequest : Z;
}.

End Ioredis.

Module RedisStoreConstructor.

(** [retryStrategy: times => Math.min(times * 50, 2000)] *)
Definition retryStrategy (times : Z) : Z := Z.min (times * 50) 2000.

(** [const [host, portStr] = redisAddr.split(':')] and
    [parseInt(portStr, 10) || 6379]; a missing [portStr] is [undefined],
    which [parseInt] reads as the text [undefined]. *)
Definition constructor (redisAddr : string) : Ioredis.options :=
  let pieces := Js.split ":" redisAddr in
  let host := default EmptyString (pieces !! 0%nat) in
  let portStr := default "undefined"%string (pieces !! 1%nat) in
  let port :=
    match Js.parseInt portStr with
    | Some n => or_number n 6379
    | None => 6379
    end in
  Ioredis.mkOptions host port retryStrategy 3.

End RedisStoreConstructor.

(** [utils/config.ts] *)
Module Config.

(** The variables of [process.env] that [loadConfig] reads. *)
Record env : Type := mkEnv {
  PORT : option string;
  REDIS_ADDR : option string;
  LOG_LEVEL : option string;
  OTEL_SERVICE_NAME : option string;
  SERVICE_NAME : option string;
  OTEL_SERVICE_VERSION : option string;
  OTEL_EXPORTER_OTLP_ENDPOINT : option string;
}.

Record t : Type := mk {
  port : Z;
  redisAddr : option string;
  logLevel : string;
  serviceName : string;
  serviceVersion : string;
  otelExporterEndpoint : option string;
}.

Definition validLogLevels : list string := ["debug"; "info"; "warn"; "error"]%string.

Definition invalid_port (text : string) : string :=
  "Invalid PORT: " +:+ text +:+ ". Must be between 1 and 65535.".

Definition invalid_log_level (logLevel : string) : string :=
  "Invalid LOG_LEVEL: " +:+ logLevel +:+ ". Must be one of: "
  +:+ Js.join ", " validLogLevels.

Definition loadConfig (e : env) : result t :=
  let port :=
    match Js.truthy (PORT e) with
    | Some text => Js.parseInt text
    | None => Some 7070
    end in
  let redisAddr := Js.truthy (REDIS_ADDR e) in
  let logLevel := default "info"%string (Js.truthy (LOG_LEVEL e)) in
  let serviceName :=
    match Js.truthy (OTEL_SERVICE_NAME e) with
    | Some s => s
    | None => default "cartservice-ts"%string (Js.truthy (SERVICE_NAME e))
    end in
  let serviceVersion := default "1.0.0"%string (Js.truthy (OTEL_SERVICE_VERSION e)) in
  let otelExporterEndpoint := Js.truthy (OTEL_EXPORTER_OTLP_ENDPOINT e) in
  match port with
  | None => Throw (invalid_port (default EmptyString (PORT e)))
  | Some port =>
      if (port <? 1) || (port >? 65535)
      then Throw (invalid_port (default EmptyString (PORT e)))
      else if negb (Js.includes validLogLevels (Js.toLowerCase logLevel))
      then Throw (invalid_log_level logLevel)
      else Ok (mk port redisAddr (Js.toLowerCase logLevel) serviceName serviceVersion
                  otelExporterEndpoint)
  end.

End Config.

(** [index.ts] *)
Module Index.

(** The store that the service runs on: a [RedisStore] with the options of
    its client, or a [MemoryStore], whose map is empty at first. *)
Inductive backend : Type :=
| Redis (options : Ioredis.options)
| Memory (store : MemoryStore.t).

(** [if (config.redisAddr) new RedisStore(config.redisAddr) else new MemoryStore()] *)
Definition initializeStorage (config : Config.t) : backend :=
  match Js.truthy (Config.redisAddr config) with
  | Some redisAddr =>
      Redis (RedisStoreConstructor.constructor redisAddr)
  | None => Memory MemoryStore.init
  end.

End Index.

(** A string without the character [:]. *)
Definition no_colon (s : string) : Prop := ~ In ":"%char (list_ascii_of_string s).


(** The two parts of [RedisStore.addItem], on either side of its first
    [await]: the read of the cart, which is [getCart], and, from
    [cart.items.find] to the end, the update of the cart read and its write
    under the key, inside the same [try]. *)
Definition addItem_write (u p : string) (q : Z) (cart : Cart) (c : RedisStore.t)
  : result unit * RedisStore.t :=
  let key := RedisStore.getCartKey u in
  let cart' := mkCart (userId cart) (merge p q (items cart)) in
  match RedisStore.serializeCart cart' with
  | Throw e => (RedisStore.rethrow (Throw e), c)
  | Ok serialized =>
      let '(r, c2) := Client.set key serialized c in (RedisStore.rethrow r, c2)
  end.


(** * Properties *)

(** ** The merge of an item into a list of items *)

Section Merge.

Implicit Types (p : string) (q : Z) (l : list CartItem).

Lemma same_product_true p item : same_product p item = true <-> productId item = p.
Proof. unfold same_product. apply String.eqb_eq. Qed.

Lemma same_product_false p item : same_product p item = false <-> productId item ≠ p.
Proof. unfold same_product. apply String.eqb_neq. Qed.

Lemma find_absent p l : find (same_product p) l = None <-> p ∉ productIds l.
Proof.
  induction l as [|item l IH]; simpl.
  - split; [intros _; apply not_elem_of_nil | done].
  - destruct (same_product p item) eqn:E.
    + apply same_product_true in E. split; [done|].
      intros H. exfalso. apply H. subst p. apply list_elem_of_here.
    + apply same_product_false in E. rewrite IH, not_elem_of_cons.
      split; [intros H; split; [congruence | done] | tauto].
Qed.

Lemma find_present p l :
  p ∈ productIds l -> exists item, find (same_product p) l = Some item.
Proof.
  intros H. destruct (find (same_product p) l) eqn:E; [eauto|].
  apply find_absent in E. done.
Qed.

Lemma productIds_increment p q l : productIds (increment p q l) = productIds l.
Proof.
  induction l as [|item l IH]; simpl; [done|].
  destruct (same_product p item); simpl; [done|]. by rewrite IH.
Qed.

Lemma merge_absent p q l : p ∉ productIds l -> merge p q l = l ++ [mkCartItem p q].
Proof. intros H. unfold merge. apply find_absent in H. by rewrite H. Qed.

Lemma merge_present p q l : p ∈ productIds l -> merge p q l = increment p q l.
Proof. intros H. unfold merge. by destruct (find_present _ _ H) as [item ->]. Qed.

Lemma productIds_merge_present p q l :
  p ∈ productIds l -> productIds (merge p q l) = productIds l.
Proof. intros H. rewrite merge_present by done. apply productIds_increment. Qed.

Lemma productIds_merge_absent p q l :
  p ∉ productIds l -> productIds (merge p q l) = productIds l ++ [p].
Proof. intros H. rewrite merge_absent by done. unfold productIds. by rewrite map_app. Qed.

Lemma merge_elem p q l : p ∈ productIds (merge p q l).
Proof.
  destruct (decide (p ∈ productIds l)) as [H|H].
  - by rewrite productIds_merge_present.
  - rewrite productIds_merge_absent by done. apply elem_of_app. right.
    apply list_elem_of_here.
Qed.

(** Merging keeps the product identifiers of a cart distinct. *)
Lemma NoDup_merge p q l : NoDup (productIds l) -> NoDup (productIds (merge p q l)).
Proof.
  intros H. destruct (decide (p ∈ productIds l)) as [Hp|Hp].
  - by rewrite productIds_merge_present.
  - rewrite productIds_merge_absent by done. apply NoDup_app. split; [done|].
    split; [|apply NoDup_singleton].
    intros x Hx Hx'. apply list_elem_of_singleton in Hx'. by subst x.
Qed.

Lemma others_increment p q l : others p (increment p q l) = others p l.
Proof.
  unfold others. induction l as [|item l IH]; simpl; [done|].
  destruct (same_product p item) eqn:E.
  - apply same_product_true in E.
    rewrite !filter_cons_False; simpl; auto.
  - apply same_product_false in E.
    rewrite !filter_cons_True by done. by rewrite IH.
Qed.

(** The items of the other products are left as they are, in their order. *)
Lemma others_merge p q l : others p (merge p q l) = others p l.
Proof.
  unfold merge. destruct (find (same_product p) l).
  - apply others_increment.
  - unfold others. rewrite filter_app, filter_cons_False, filter_nil; simpl; auto.
    by rewrite app_nil_r.
Qed.

Lemma entries_absent p l : p ∉ productIds l -> entries p l = [].
Proof.
  unfold entries. induction l as [|item l IH]; simpl; [done|].
  rewrite not_elem_of_cons. intros [H1 H2].
  rewrite filter_cons_False by done. auto.
Qed.

Lemma entries_merge_absent p q l :
  p ∉ productIds l -> entries p (merge p q l) = [mkCartItem p q].
Proof.
  intros H. rewrite merge_absent by done. unfold entries.
  rewrite filter_app. fold (entries p l). rewrite entries_absent by done.
  by rewrite filter_cons_True.
Qed.

Lemma entries_increment p q q0 l :
  entries p l = [mkCartItem p q0] ->
  entries p (increment p q l) = [mkCartItem p (q0 + q)].
Proof.
  unfold entries. induction l as [|item l IH]; simpl; [done|].
  destruct (same_product p item) eqn:E.
  - apply same_product_true in E.
    rewrite !filter_cons_True by done. intros H. injection H as H1 H2.
    rewrite H2. f_equal. destruct item as [p' q']. simpl in *. by inversion H1.
  - apply same_product_false in E.
    rewrite !filter_cons_False by done. apply IH.
Qed.

Lemma entries_elem p item l : entries p l = [item] -> p ∈ productIds l.
Proof.
  intros H. assert (Hin : item ∈ entries p l) by (rewrite H; apply list_elem_of_here).
  unfold entries in Hin. apply list_elem_of_filter in Hin as [Hp Hin].
  subst p. unfold productIds. apply list_elem_of_fmap. eauto.
Qed.

Lemma entries_merge_present p q q0 l :
  entries p l = [mkCartItem p q0] ->
  entries p (merge p q l) = [mkCartItem p (q0 + q)].
Proof.
  intros H. rewrite merge_present by (by eapply entries_elem).
  by apply entries_increment.
Qed.

(** Two merges of the same product into a cart that does not hold it. *)
Lemma entries_merge_twice p q1 q2 l :
  p ∉ productIds l ->
  entries p (merge p q2 (merge p q1 l)) = [mkCartItem p (q1 + q2)].
Proof.
  intros H. apply entries_merge_present. by apply entries_merge_absent.
Qed.

End Merge.

(** ** The codec: what is written is read back *)

Section Codec.

Import Protobuf.

Lemma bind_Ok {A B : Type} (a : A) (f : A -> result B) : (Ok a ≫= f) = f a.
Proof. reflexivity. Qed.

Lemma to_N_byte_of_N (n : N) : (n < 256)%N -> Byte.to_N (Writer.byte_of_N n) = n.
Proof.
  intros H. unfold Writer.byte_of_N. rewrite N.mod_small by done.
  destruct (Byte.of_N n) as [b|] eqn:E.
  - by apply Byte.to_of_N.
  - apply Byte.of_N_None_iff in E. exfalso. lia.
Qed.

Lemma read_write_varint (fuel : nat) (n : N) (rest : Buffer) :
  (n < 2 ^ N.of_nat fuel)%N ->
  Reader.uint32 (Writer.write_varint fuel n ++ rest) = Ok (n, rest).
Proof.
  revert n. induction fuel as [|fuel IH]; intros n Hn.
  - simpl in *. assert (n = 0%N) as -> by lia. reflexivity.
  - cbn [Writer.write_varint]. destruct (N.ltb_spec n 128) as [Hs|Hs].
    + cbn [app Reader.uint32]. rewrite to_N_byte_of_N by (clear - Hs; lia).
      destruct (N.ltb_spec n 128) as [_|H]; [done | exfalso; clear - H Hs; lia].
    + cbn [app Reader.uint32].
      assert (Hm : (n mod 128 < 128)%N) by (apply N.mod_lt; lia).
      assert (Hd : (n = 128 * (n / 128) + n mod 128)%N) by (apply N.div_mod; lia).
      assert (Hq : (n / 128 < 2 ^ N.of_nat fuel)%N).
      { rewrite Nat2N.inj_succ, N.pow_succ_r' in Hn.
        apply N.Div0.div_lt_upper_bound.
        assert (0 < 2 ^ N.of_nat fuel)%N by (apply N.neq_0_lt_0, N.pow_nonzero; lia).
        nia. }
      revert Hm Hd. generalize (n mod 128)%N as r. intros r Hm Hd.
      rewrite to_N_byte_of_N by (clear - Hm; lia).
      destruct (N.ltb_spec (r + 128) 128) as [H|_]; [exfalso; clear - H; lia|].
      rewrite IH by done. simpl. do 2 f_equal. clear - Hd. lia.
Qed.

Lemma read_varint_varint (n : N) (rest : Buffer) :
  Reader.uint32 (Writer.varint n ++ rest) = Ok (n, rest).
Proof.
  unfold Writer.varint. apply read_write_varint. rewrite N2Nat.id. apply N.size_gt.
Qed.

Lemma to_int32_mod (v : Z) (k : Z) :
  32 <= k -> to_int32 (v mod 2 ^ k) = to_int32 v.
Proof.
  intros Hk. unfold to_int32. f_equal.
  replace (2 ^ k) with (2 ^ 32 * 2 ^ (k - 32))
    by (rewrite <- Z.pow_add_r by lia; f_equal; lia).
  assert (0 < 2 ^ (k - 32)) by (apply Z.pow_pos_nonneg; lia).
  rewrite Z.rem_mul_r by lia.
  rewrite <- Z.add_assoc, (Z.add_comm (2 ^ 32 * _)), Z.add_assoc.
  rewrite (Z.mul_comm (2 ^ 32)), Z.mod_add by lia.
  rewrite Z.add_mod_idemp_l by lia. done.
Qed.

Lemma to_int32_range (v : Z) : int32_range (to_int32 v).
Proof.
  unfold int32_range, to_int32.
  pose proof (Z.mod_pos_bound (v + 2 ^ 31) (2 ^ 32)). lia.
Qed.

Lemma to_int32_id (v : Z) : int32_range v -> to_int32 v = v.
Proof.
  unfold int32_range, to_int32. intros H. rewrite Z.mod_small; lia.
Qed.

Lemma to_int32_idemp (v : Z) : to_int32 (to_int32 v) = to_int32 v.
Proof. apply to_int32_id, to_int32_range. Qed.

Lemma to_int32_add (v q : Z) : to_int32 (to_int32 v + q) = to_int32 (v + q).
Proof.
  unfold to_int32. f_equal.
  replace ((v + 2 ^ 31) mod 2 ^ 32 - 2 ^ 31 + q + 2 ^ 31)
    with ((v + 2 ^ 31) mod 2 ^ 32 + q) by lia.
  rewrite Z.add_mod_idemp_l by lia. f_equal. lia.
Qed.

Lemma read_int32_int32 (v : Z) (rest : Buffer) :
  Reader.int32 (Writer.int32 v ++ rest) = Ok (to_int32 v, rest).
Proof.
  unfold Reader.int32, Writer.int32, Writer.uint32.
  destruct (v <? 0); rewrite read_varint_varint; simpl; f_equal; f_equal.
  - rewrite Z2N.id by (apply Z.mod_pos_bound; lia). by apply to_int32_mod.
  - rewrite Z2N.id by (apply Z.mod_pos_bound; lia). by apply to_int32_mod.
Qed.

Lemma read_string_string (s : String.string) (rest : Buffer) :
  Reader.string (Writer.string s ++ rest) = Ok (s, rest).
Proof.
  unfold Reader.string, Writer.string. cbn zeta.
  rewrite <- app_assoc, read_varint_varint, bind_Ok. cbn beta iota.
  rewrite Nat2N.id, take_app_length, drop_app_length.
  by rewrite string_of_list_byte_of_string.
Qed.

Lemma tag_1_2 : Writer.tag 1 2 = [x0a].
Proof. reflexivity. Qed.

Lemma tag_2_0 : Writer.tag 2 0 = [x10].
Proof. reflexivity. Qed.

Lemma tag_2_2 : Writer.tag 2 2 = [x12].
Proof. reflexivity. Qed.

Lemma varint_length (n : N) : (1 <= length (Writer.varint n))%nat.
Proof.
  unfold Writer.varint. destruct (N.to_nat (N.size n)); simpl; [lia|].
  destruct (n <? 128)%N; simpl; lia.
Qed.

(** Goals on the lengths of concatenated buffers. *)
Ltac lengths :=
  repeat (rewrite ?List.length_app; cbn [length app]); lia.

Lemma CartItem_decode_step (fuel : nat) (left : Z) (bs r1 r2 : Buffer)
      (t : N) (m m' : CartItem) :
  0 < left ->
  Reader.uint32 bs = Ok (t, r1) ->
  CartItem_field t r1 m = Ok (m', r2) ->
  CartItem_decode (S fuel) left bs m
  = CartItem_decode fuel (left - (Z.of_nat (length bs) - Z.of_nat (length r2))) r2 m'.
Proof.
  intros Hleft Ht Hf. cbn [CartItem_decode].
  destruct (Z.leb_spec left 0) as [H|_]; [lia|].
  rewrite Ht. simpl. rewrite Hf. reflexivity.
Qed.

Lemma CartItem_decode_stop (fuel : nat) (left : Z) (bs : Buffer) (m : CartItem) :
  left <= 0 -> CartItem_decode (S fuel) left bs m = Ok (m, bs).
Proof.
  intros Hleft. cbn [CartItem_decode].
  destruct (Z.leb_spec left 0) as [_|H]; [done | lia].
Qed.

Lemma CartItem_field_productId (s : String.string) (rest : Buffer) (m : CartItem) :
  CartItem_field 10 (Writer.string s ++ rest) m = Ok (mkCartItem s (quantity m), rest).
Proof.
  unfold CartItem_field. change (10 / 8)%N with 1%N. cbn iota.
  by rewrite read_string_string.
Qed.

Lemma CartItem_field_quantity (v : Z) (rest : Buffer) (m : CartItem) :
  CartItem_field 16 (Writer.int32 v ++ rest) m = Ok (mkCartItem (productId m) (to_int32 v), rest).
Proof.
  unfold CartItem_field. change (16 / 8)%N with 2%N. cbn iota.
  by rewrite read_int32_int32.
Qed.

Lemma CartItem_decode_encode (item : CartItem) (fuel : nat) (m : CartItem) (rest : Buffer) :
  (3 <= fuel)%nat ->
  CartItem_decode fuel (Z.of_nat (length (CartItem_encode item)))
                  (CartItem_encode item ++ rest) m
  = Ok (wire_item item, rest).
Proof.
  intros Hfuel. destruct fuel as [|[|[|fuel]]]; try lia.
  unfold CartItem_encode. rewrite tag_1_2, tag_2_0.
  set (s := Writer.string (productId item)). set (i := Writer.int32 (quantity item)).
  rewrite (CartItem_decode_step _ _ _ ((s ++ [x10] ++ i) ++ rest)
             (([x10] ++ i) ++ rest) 10 m (mkCartItem (productId item) (quantity m))).
  2:{ lengths. }
  2:{ reflexivity. }
  2:{ rewrite <- app_assoc. apply CartItem_field_productId. }
  rewrite (CartItem_decode_step _ _ _ (i ++ rest) rest 16 _ (wire_item item)).
  2:{ lengths. }
  2:{ reflexivity. }
  2:{ apply CartItem_field_quantity. }
  apply CartItem_decode_stop.
  lengths.
Qed.

Lemma CartItem_encode_length (item : CartItem) : (4 <= length (CartItem_encode item))%nat.
Proof.
  unfold CartItem_encode, Writer.string, Writer.int32, Writer.uint32. rewrite tag_1_2, tag_2_0.
  pose proof (varint_length (N.of_nat (length (list_byte_of_string (productId item))))).
  pose proof (varint_length (Z.to_N (quantity item `mod` 2 ^ 64))).
  pose proof (varint_length (Z.to_N (quantity item `mod` 2 ^ 32))).
  destruct (quantity item <? 0); lengths.
Qed.

Lemma flat_map_length (l : list CartItem) :
  (length l <= length (flat_map item_field l))%nat.
Proof.
  induction l as [|item l IH]; cbn [flat_map length]; [lia|].
  unfold item_field at 1. rewrite tag_2_2. lengths.
Qed.

Lemma Cart_decode_step_items (fuel : nat) (bs r1 r2 rest : Buffer) (l : N)
      (item : CartItem) (m : Cart) :
  Reader.uint32 bs = Ok (18%N, r1) ->
  Reader.uint32 r1 = Ok (l, r2) ->
  CartItem_decode (S (length r2)) (Z.of_N l) r2 (mkCartItem EmptyString 0)
  = Ok (item, rest) ->
  Cart_decode (S fuel) bs m
  = Cart_decode fuel rest (mkCart (userId m) (items m ++ [item])).
Proof.
  intros H1 H2 H3. destruct bs as [|b bs]; [discriminate|].
  cbn [Cart_decode]. rewrite H1, bind_Ok. cbn beta iota.
  change (18 / 8)%N with 2%N. cbn beta iota.
  rewrite H2, bind_Ok. cbn beta iota. rewrite H3, bind_Ok. reflexivity.
Qed.

Lemma Cart_decode_step_userId (fuel : nat) (bs r1 rest : Buffer)
      (s : String.string) (m : Cart) :
  Reader.uint32 bs = Ok (10%N, r1) ->
  Reader.string r1 = Ok (s, rest) ->
  Cart_decode (S fuel) bs m = Cart_decode fuel rest (mkCart s (items m)).
Proof.
  intros H1 H2. destruct bs as [|b bs]; [discriminate|].
  cbn [Cart_decode]. rewrite H1, bind_Ok. cbn beta iota.
  change (10 / 8)%N with 1%N. cbn beta iota.
  rewrite H2, bind_Ok. reflexivity.
Qed.

Lemma Cart_decode_items (l : list CartItem) (fuel : nat) (m : Cart) :
  (length l < fuel)%nat ->
  Cart_decode fuel (flat_map item_field l) m
  = Ok (mkCart (userId m) (items m ++ map wire_item l)).
Proof.
  revert fuel m. induction l as [|item l IH]; intros fuel m Hfuel.
  - destruct fuel; [simpl in Hfuel; lia|]. simpl. rewrite app_nil_r. by destruct m.
  - destruct fuel as [|fuel]; [simpl in Hfuel; lia|].
    cbn [flat_map]. unfold item_field at 1, Writer.ldelim. rewrite tag_2_2.
    rewrite <- !app_assoc.
    erewrite Cart_decode_step_items;
      [|reflexivity|apply read_varint_varint|].
    + rewrite IH by (simpl in Hfuel; lia). cbn [userId items map].
      by rewrite <- app_assoc.
    + rewrite nat_N_Z. apply CartItem_decode_encode.
      pose proof (CartItem_encode_length item). lengths.
Qed.

Lemma decode_encode (c : Cart) : decode (encode c) = Ok (wire c).
Proof.
  unfold decode, encode, Cart_encode. rewrite tag_1_2.
  change (flat_map _ (items c)) with (flat_map item_field (items c)).
  erewrite Cart_decode_step_userId; [|reflexivity|apply read_string_string].
  rewrite Cart_decode_items; [done|].
  pose proof (flat_map_length (items c)).
  pose proof (varint_length (N.of_nat (length (list_byte_of_string (userId c))))).
  unfold Writer.string. lengths.
Qed.

Lemma wire_item_id (item : CartItem) :
  int32_range (quantity item) -> wire_item item = item.
Proof. intros H. destruct item. unfold wire_item. simpl in *. by rewrite to_int32_id. Qed.

Lemma wire_id (c : Cart) : wire_cart c -> wire c = c.
Proof.
  destruct c as [u l]. unfold wire_cart, wire. simpl. intros H. f_equal.
  induction H as [|item l Hi Hl IH]; simpl; [done|].
  by rewrite wire_item_id, IH.
Qed.

Lemma wire_cart_wire (c : Cart) : wire_cart (wire c).
Proof.
  unfold wire_cart, wire. simpl. apply Forall_forall. intros item Hin.
  apply list_elem_of_fmap in Hin as [item' [-> _]]. apply to_int32_range.
Qed.

Lemma productIds_wire (l : list CartItem) : productIds (map wire_item l) = productIds l.
Proof. unfold productIds. rewrite map_map. done. Qed.

(** What the decoder returns, for any bytes, holds 32-bit quantities. *)
Lemma bind_Ok_inv {A B : Type} (r : result A) (f : A -> result B) (b : B) :
  (r ≫= f) = Ok b -> exists a, r = Ok a /\ f a = Ok b.
Proof. destruct r as [a|e]; [eauto | discriminate]. Qed.

Lemma read_int32_range (bs rest : Buffer) (q : Z) :
  Reader.int32 bs = Ok (q, rest) -> int32_range q.
Proof.
  unfold Reader.int32. intros H. apply bind_Ok_inv in H as [[n r] [_ H]].
  injection H as <- _. apply to_int32_range.
Qed.

Lemma CartItem_field_range (t : N) (bs rest : Buffer) (m m' : CartItem) :
  CartItem_field t bs m = Ok (m', rest) ->
  int32_range (quantity m) -> int32_range (quantity m').
Proof.
  unfold CartItem_field. intros H Hm.
  repeat case_match; apply bind_Ok_inv in H as [x [Hx H]];
    try (destruct x; injection H as <- _; simpl; eauto using read_int32_range);
    try (injection H as <- _; done).
Qed.

Lemma CartItem_decode_range (fuel : nat) (left : Z) (bs rest : Buffer) (m m' : CartItem) :
  CartItem_decode fuel left bs m = Ok (m', rest) ->
  int32_range (quantity m) -> int32_range (quantity m').
Proof.
  revert left bs m. induction fuel as [|fuel IH]; intros left bs m H Hm; [discriminate|].
  cbn [CartItem_decode] in H. destruct (left <=? 0).
  - by injection H as <- _.
  - apply bind_Ok_inv in H as [[t r1] [_ H]].
    apply bind_Ok_inv in H as [[m1 r2] [H1 H]].
    eapply IH; [exact H|]. by eapply CartItem_field_range.
Qed.

Lemma Cart_decode_range (fuel : nat) (bs : Buffer) (m c : Cart) :
  Cart_decode fuel bs m = Ok c -> wire_cart m -> wire_cart c.
Proof.
  revert bs m. induction fuel as [|fuel IH]; intros bs m H Hm; [discriminate|].
  cbn [Cart_decode] in H. destruct bs as [|b bs]; [by injection H as <-|].
  apply bind_Ok_inv in H as [[t r1] [_ H]].
  repeat case_match.
  all: apply bind_Ok_inv in H as [x [Hx H]].
  all: try (destruct x as [s rest]; by eapply IH; [exact H|]).
  all: try (by eapply IH; [exact H|]).
  destruct x as [l r2]. apply bind_Ok_inv in H as [[item rest] [Hi H]].
  eapply IH; [exact H|]. unfold wire_cart in *. cbn [items].
  apply Forall_app. split; [done|]. apply Forall_singleton.
  eapply CartItem_decode_range; [exact Hi|]. unfold int32_range. simpl. lia.
Qed.

Lemma decode_range (bs : Buffer) (c : Cart) : decode bs = Ok c -> wire_cart c.
Proof.
  unfold decode. intros H. eapply Cart_decode_range; [exact H|].
  unfold wire_cart. simpl. constructor.
Qed.

(** The written bytes, read as a sequence of fields of the wire format. *)
Lemma read_bytes_ldelim (body rest : Buffer) :
  Reader.bytes (Writer.ldelim body ++ rest) = Ok (body, rest).
Proof.
  unfold Reader.bytes, Writer.ldelim.
  rewrite <- app_assoc, read_varint_varint, bind_Ok. cbn beta iota.
  destruct (N.ltb_spec (N.of_nat (length (body ++ rest))) (N.of_nat (length body)))
    as [H|H].
  - rewrite length_app in H. lia.
  - by rewrite Nat2N.id, take_app_length, drop_app_length.
Qed.

Lemma scan_step_bytes (fuel : nat) (bs r1 r2 b : Buffer) (t : N) :
  Reader.uint32 bs = Ok (t, r1) ->
  (t mod 8 = 2)%N ->
  Reader.bytes r1 = Ok (b, r2) ->
  WireFormat.scan (S fuel) bs
  = (rest ← WireFormat.scan fuel r2;
     Ok (WireFormat.mk (t / 8) 2 (WireFormat.Bytes b) :: rest)).
Proof.
  intros H1 Ht H2. destruct bs as [|b0 bs]; [discriminate|].
  cbn [WireFormat.scan]. rewrite H1, bind_Ok. cbn beta iota.
  rewrite Ht. cbn [N.eqb Pos.eqb]. cbn iota. by rewrite H2, bind_Ok.
Qed.

Lemma scan_step_varint (fuel : nat) (bs r1 r2 : Buffer) (t n : N) :
  Reader.uint32 bs = Ok (t, r1) ->
  (t mod 8 = 0)%N ->
  Reader.uint32 r1 = Ok (n, r2) ->
  WireFormat.scan (S fuel) bs
  = (rest ← WireFormat.scan fuel r2;
     Ok (WireFormat.mk (t / 8) 0 (WireFormat.Varint n) :: rest)).
Proof.
  intros H1 Ht H2. destruct bs as [|b0 bs]; [discriminate|].
  cbn [WireFormat.scan]. rewrite H1, bind_Ok. cbn beta iota.
  rewrite Ht. cbn [N.eqb]. cbn iota. by rewrite H2, bind_Ok.
Qed.

Lemma int32_varint (v : Z) :
  int32_range v -> Writer.int32 v = Writer.varint (Z.to_N (v mod 2 ^ 64)).
Proof.
  unfold int32_range, Writer.int32, Writer.uint32. intros H.
  destruct (Z.ltb_spec v 0); [done|]. by rewrite !Z.mod_small by lia.
Qed.

Lemma fields_CartItem (item : CartItem) :
  int32_range (quantity item) ->
  WireFormat.fields (CartItem_encode item)
  = Ok [WireFormat.mk 1 2 (WireFormat.string (productId item));
        WireFormat.mk 2 0 (WireFormat.int32 (quantity item))].
Proof.
  intros Hq. unfold WireFormat.fields.
  pose proof (CartItem_encode_length item) as Hlen.
  destruct (length (CartItem_encode item)) as [|[|n]]; [lia | lia |].
  unfold CartItem_encode. rewrite tag_1_2, tag_2_0, int32_varint by done.
  erewrite scan_step_bytes;
    [|reflexivity|reflexivity|apply (read_bytes_ldelim (list_byte_of_string (productId item)))].
  pose proof (read_varint_varint (Z.to_N (quantity item `mod` 2 ^ 64)) []) as Hv.
  rewrite app_nil_r in Hv.
  erewrite scan_step_varint; [|reflexivity|reflexivity|exact Hv].
  reflexivity.
Qed.

Lemma scan_items (l : list CartItem) (fuel : nat) :
  (length l < fuel)%nat ->
  WireFormat.scan fuel (flat_map item_field l)
  = Ok (map (fun item => WireFormat.mk 2 2 (WireFormat.Bytes (CartItem_encode item))) l).
Proof.
  revert fuel. induction l as [|item l IH]; intros fuel Hfuel.
  - destruct fuel; [simpl in Hfuel; lia | reflexivity].
  - destruct fuel as [|fuel]; [simpl in Hfuel; lia|].
    cbn [flat_map]. unfold item_field at 1. rewrite tag_2_2.
    erewrite scan_step_bytes; [|reflexivity|reflexivity|apply read_bytes_ldelim].
    rewrite IH by (simpl in Hfuel; lia). reflexivity.
Qed.

Lemma fields_Cart (c : Cart) :
  WireFormat.fields (encode c)
  = Ok (WireFormat.mk 1 2 (WireFormat.string (userId c))
        :: map (fun item => WireFormat.mk 2 2 (WireFormat.Bytes (CartItem_encode item)))
               (items c)).
Proof.
  unfold WireFormat.fields, encode, Cart_encode. rewrite tag_1_2.
  change (flat_map _ (items c)) with (flat_map item_field (items c)).
  erewrite scan_step_bytes;
    [|reflexivity|reflexivity|apply (read_bytes_ldelim (list_byte_of_string (userId c)))].
  rewrite scan_items; [reflexivity|].
  pose proof (flat_map_length (items c)).
  pose proof (varint_length (N.of_nat (length (list_byte_of_string (userId c))))).
  unfold Writer.string. lengths.
Qed.

End Codec.

(** ** The decoders terminate within their fuel *)

Section Fuel.

Import Protobuf.

Lemma uint32_shorter (bs rest : Buffer) (n : N) :
  Reader.uint32 bs = Ok (n, rest) -> (length rest < length bs)%nat.
Proof.
  revert n rest. induction bs as [|b bs IH]; intros n rest H; simpl in H; [discriminate|].
  destruct (Byte.to_N b <? 128)%N.
  - injection H as _ <-. simpl. lia.
  - apply bind_Ok_inv in H as [[m r] [Hm H]]. injection H as _ <-.
    apply IH in Hm. simpl. lia.
Qed.

Lemma skip_varint_shorter (bs rest : Buffer) :
  Reader.skip_varint bs = Ok rest -> (length rest < length bs)%nat.
Proof.
  revert rest. induction bs as [|b bs IH]; intros rest H; simpl in H; [discriminate|].
  destruct (Byte.to_N b <? 128)%N.
  - injection H as <-. simpl. lia.
  - apply IH in H. simpl. lia.
Qed.

Lemma skip_shorter (n : N) (bs rest : Buffer) :
  Reader.skip n bs = Ok rest -> (length rest <= length bs)%nat.
Proof.
  unfold Reader.skip. destruct (_ <? _)%N; [discriminate|].
  intros [= <-]. rewrite length_drop. lia.
Qed.

Lemma bytes_shorter (bs value rest : Buffer) :
  Reader.bytes bs = Ok (value, rest) -> (length rest < length bs)%nat.
Proof.
  unfold Reader.bytes. intros H. apply bind_Ok_inv in H as [[n r] [Hn H]].
  apply uint32_shorter in Hn. destruct (_ <? _)%N; [discriminate|].
  injection H as _ <-. rewrite length_drop. lia.
Qed.

Lemma string_shorter (bs rest : Buffer) (s : string) :
  Reader.string bs = Ok (s, rest) -> (length rest < length bs)%nat.
Proof.
  unfold Reader.string. intros H. apply bind_Ok_inv in H as [[n r] [Hn H]].
  apply uint32_shorter in Hn. injection H as _ <-. rewrite length_drop. lia.
Qed.

Lemma int32_shorter (bs rest : Buffer) (q : Z) :
  Reader.int32 bs = Ok (q, rest) -> (length rest < length bs)%nat.
Proof.
  unfold Reader.int32. intros H. apply bind_Ok_inv in H as [[n r] [Hn H]].
  injection H as _ <-. by eapply uint32_shorter.
Qed.

Lemma skipType_shorter (fuel : nat) (wireType : N) (bs rest : Buffer) :
  Reader.skipType fuel wireType bs = Ok rest -> (length rest <= length bs)%nat.
Proof.
  revert wireType bs rest. induction fuel as [|fuel IH]; intros wt bs rest H; [discriminate|].
  cbn [Reader.skipType] in H. repeat case_match; try discriminate.
  all: try (apply skip_varint_shorter in H; lia).
  all: try (by eapply skip_shorter).
  all: apply bind_Ok_inv in H as [[n r] [Hn H]]; apply uint32_shorter in Hn.
  all: try (apply skip_shorter in H; lia).
  destruct (_ =? _)%N.
  - injection H as <-. lia.
  - apply bind_Ok_inv in H as [r' [Hr H]]. apply IH in Hr, H. lia.
Qed.

(** The fuel of [skipType] and of the decoders is never used up: above the
    length of the buffer, the result does not depend on it. *)
Lemma skipType_fuel (fuel1 fuel2 : nat) (wireType : N) (bs : Buffer) :
  (length bs < fuel1)%nat -> (length bs < fuel2)%nat ->
  Reader.skipType fuel1 wireType bs = Reader.skipType fuel2 wireType bs.
Proof.
  revert fuel2 wireType bs. induction fuel1 as [|fuel1 IH]; intros fuel2 wt bs H1 H2; [lia|].
  destruct fuel2 as [|fuel2]; [lia|]. cbn [Reader.skipType].
  repeat case_match; try reflexivity.
  destruct (Reader.uint32 bs) as [[t r]|e] eqn:Ht; [|reflexivity].
  apply uint32_shorter in Ht. rewrite !bind_Ok. cbn beta iota.
  destruct (_ =? _)%N; [reflexivity|].
  rewrite (IH fuel2 (t mod 8)%N r) by lia.
  destruct (Reader.skipType fuel2 (t mod 8) r) as [r'|e] eqn:Hr; [|reflexivity].
  apply skipType_shorter in Hr. rewrite !bind_Ok. apply IH; lia.
Qed.

Lemma CartItem_field_shorter (t : N) (bs rest : Buffer) (m m' : CartItem) :
  CartItem_field t bs m = Ok (m', rest) -> (length rest <= length bs)%nat.
Proof.
  unfold CartItem_field. intros H.
  repeat case_match; apply bind_Ok_inv in H as [x [Hx H]].
  all: try (destruct x; injection H as _ <-).
  all: try (injection H as _ <-).
  all: try (apply skipType_shorter in Hx; lia).
  all: try (apply string_shorter in Hx; lia).
  all: try (apply int32_shorter in Hx; lia).
Qed.

Lemma CartItem_decode_shorter (fuel : nat) (left : Z) (bs rest : Buffer) (m m' : CartItem) :
  CartItem_decode fuel left bs m = Ok (m', rest) -> (length rest <= length bs)%nat.
Proof.
  revert left bs m. induction fuel as [|fuel IH]; intros left bs m H; [discriminate|].
  cbn [CartItem_decode] in H. destruct (left <=? 0).
  - injection H as _ <-. lia.
  - apply bind_Ok_inv in H as [[t r1] [Ht H]].
    apply bind_Ok_inv in H as [[m1 r2] [Hf H]].
    apply uint32_shorter in Ht. apply CartItem_field_shorter in Hf. apply IH in H. lia.
Qed.

Lemma CartItem_decode_fuel (fuel1 fuel2 : nat) (left : Z) (bs : Buffer) (m : CartItem) :
  (length bs < fuel1)%nat -> (length bs < fuel2)%nat ->
  CartItem_decode fuel1 left bs m = CartItem_decode fuel2 left bs m.
Proof.
  revert fuel2 left bs m.
  induction fuel1 as [|fuel1 IH]; intros fuel2 left bs m H1 H2; [lia|].
  destruct fuel2 as [|fuel2]; [lia|]. cbn [CartItem_decode].
  destruct (left <=? 0); [reflexivity|].
  destruct (Reader.uint32 bs) as [[t r1]|e] eqn:Ht; [|reflexivity].
  rewrite !bind_Ok. cbn beta iota.
  destruct (CartItem_field t r1 m) as [[m1 r2]|e] eqn:Hf; [|reflexivity].
  rewrite !bind_Ok. cbn beta iota.
  apply uint32_shorter in Ht. apply CartItem_field_shorter in Hf. apply IH; lia.
Qed.

Lemma Cart_decode_fuel (fuel1 fuel2 : nat) (bs : Buffer) (m : Cart) :
  (length bs < fuel1)%nat -> (length bs < fuel2)%nat ->
  Cart_decode fuel1 bs m = Cart_decode fuel2 bs m.
Proof.
  revert fuel2 bs m. induction fuel1 as [|fuel1 IH]; intros fuel2 bs m H1 H2; [lia|].
  destruct fuel2 as [|fuel2]; [lia|]. cbn [Cart_decode].
  destruct bs as [|b bs]; [reflexivity|].
  destruct (Reader.uint32 (b :: bs)) as [[t r1]|e] eqn:Ht; [|reflexivity].
  rewrite !bind_Ok. cbn beta iota. apply uint32_shorter in Ht.
  repeat case_match.
  all: match goal with
       | |- (?r ≫= _) = (?r ≫= _) => destruct r as [x|e] eqn:Hx; [|reflexivity]
       end.
  all: rewrite !bind_Ok; cbn beta iota.
  all: try (apply skipType_shorter in Hx; apply IH; lia).
  all: try (destruct x as [s rest]; apply string_shorter in Hx; apply IH; lia).
  destruct x as [l r2]. apply uint32_shorter in Hx.
  destruct (CartItem_decode _ _ r2 _) as [[item rest]|e] eqn:Hi; [|reflexivity].
  rewrite !bind_Ok. cbn beta iota. apply CartItem_decode_shorter in Hi. apply IH; lia.
Qed.

(** [decode] with any fuel above the length of the buffer. *)
Lemma decode_fuel (fuel : nat) (bs : Buffer) :
  (length bs < fuel)%nat ->
  Cart_decode fuel bs (mkCart EmptyString []) = decode bs.
Proof. intros H. unfold decode. apply Cart_decode_fuel; lia. Qed.

End Fuel.

(** ** The Local Store *)

Section Memory.

Implicit Types (carts : gmap string Cart) (u v p : string) (q : Z).

Lemma memory_getCart carts u : MemoryStore.getCart u carts = (Ok (memory_cart carts u), carts).
Proof. unfold MemoryStore.getCart, memory_cart. by destruct (carts !! u). Qed.

Lemma memory_addItem_cart carts u p q :
  memory_cart (MemoryStore.addItem u p q carts).2 u
  = mkCart (userId (memory_cart carts u)) (merge p q (items (memory_cart carts u))).
Proof. unfold memory_cart, MemoryStore.addItem. simpl. by rewrite lookup_insert_eq. Qed.

Lemma memory_addItem_other carts u v p q :
  v ≠ u -> (MemoryStore.addItem u p q carts).2 !! v = carts !! v.
Proof. intros H. unfold MemoryStore.addItem. simpl. by rewrite lookup_insert_ne. Qed.

Lemma memory_emptyCart_other carts u v :
  v ≠ u -> (MemoryStore.emptyCart u carts).2 !! v = carts !! v.
Proof. intros H. unfold MemoryStore.emptyCart. simpl. by rewrite lookup_insert_ne. Qed.

Lemma memory_inv_run o carts : memory_inv carts -> memory_inv (run o carts).
Proof.
  intros Hinv. destruct o as [u p q|u|u]; simpl.
  - intros v cart. unfold MemoryStore.addItem. simpl.
    destruct (decide (u = v)) as [->|Hne].
    + rewrite lookup_insert_eq. intros [= <-]. simpl. apply NoDup_merge.
      destruct (carts !! v) as [cart|] eqn:E; simpl; [by eapply Hinv | constructor].
    + rewrite lookup_insert_ne by done. apply Hinv.
  - by rewrite memory_getCart.
  - intros v cart. unfold MemoryStore.emptyCart. simpl.
    destruct (decide (u = v)) as [->|Hne].
    + rewrite lookup_insert_eq. intros [= <-]. simpl. constructor.
    + rewrite lookup_insert_ne by done. apply Hinv.
Qed.

Lemma memory_inv_reachable carts : memory_reachable carts -> memory_inv carts.
Proof.
  induction 1 as [|o carts _ IH].
  - intros u cart. unfold MemoryStore.init. by rewrite lookup_empty.
  - by apply memory_inv_run.
Qed.

End Memory.

(** ** The Remote Store *)

Section Redis.

Import Protobuf.

Implicit Types (c : Client.t) (u v p : string) (q : Z) (b : Buffer).

Lemma items_copy (l : list CartItem) :
  map (fun item => mkCartItem (productId item) (quantity item)) l = l.
Proof. induction l as [|[p q] l IH]; simpl; [done|]. by rewrite IH. Qed.

Lemma serializeCart_encode (cart : Cart) : RedisStore.serializeCart cart = Ok (encode cart).
Proof.
  unfold RedisStore.serializeCart. simpl. rewrite items_copy. by destruct cart.
Qed.

Lemma or_string_empty (s : String.string) : or_string s "" = s.
Proof. unfold or_string. destruct (String.eqb_spec s ""); congruence. Qed.

Lemma or_number_zero q : or_number q 0 = q.
Proof. unfold or_number. destruct (Z.eqb_spec q 0); congruence. Qed.

(** The defaults that [deserializeCart] applies leave a decoded message as
    it is. *)
Lemma deserializeCart_decode b : RedisStore.deserializeCart b = decode b.
Proof.
  unfold RedisStore.deserializeCart. destruct (decode b) as [[s l]|e]; simpl; [|done].
  rewrite or_string_empty. do 2 f_equal.
  induction l as [|[p q] l IH]; simpl; [done|].
  by rewrite or_string_empty, or_number_zero, IH.
Qed.

Lemma deserialize_serialize (cart : Cart) b :
  RedisStore.serializeCart cart = Ok b -> RedisStore.deserializeCart b = Ok (wire cart).
Proof.
  rewrite serializeCart_encode. intros [= <-].
  rewrite deserializeCart_decode. apply decode_encode.
Qed.

Lemma getCartKey_inj u v : RedisStore.getCartKey u = RedisStore.getCartKey v -> u = v.
Proof.
  unfold RedisStore.getCartKey. intros H. cbv [String.append] in H. by injection H.
Qed.

Lemma redis_getCart_state u c : (RedisStore.getCart u c).2 = c.
Proof. unfold RedisStore.getCart, Client.getBuffer. by destruct (Client.fault c). Qed.

Lemma redis_getCart_fault u c e :
  Client.fault c = Some e ->
  RedisStore.getCart u c = (Throw (RedisStore.storage_error e), c).
Proof. intros H. unfold RedisStore.getCart, Client.getBuffer. by rewrite H. Qed.

Lemma redis_getCart_absent u c :
  Client.fault c = None -> Client.keys c !! RedisStore.getCartKey u = None ->
  RedisStore.getCart u c = (Ok (mkCart u []), c).
Proof. intros H1 H2. unfold RedisStore.getCart, Client.getBuffer. by rewrite H1, H2. Qed.

Lemma redis_getCart_present u c b :
  Client.fault c = None -> Client.keys c !! RedisStore.getCartKey u = Some b ->
  RedisStore.getCart u c = (RedisStore.rethrow (decode b), c).
Proof.
  intros H1 H2. unfold RedisStore.getCart, Client.getBuffer. rewrite H1, H2. simpl.
  by rewrite deserializeCart_decode.
Qed.

Lemma redis_addItem_throw u p q c e :
  (RedisStore.getCart u c).1 = Throw e ->
  RedisStore.addItem u p q c = (Throw (RedisStore.storage_error e), c).
Proof.
  intros H. unfold RedisStore.addItem.
  pose proof (redis_getCart_state u c) as Hs.
  destruct (RedisStore.getCart u c) as [r c1]. cbn [fst snd] in *. by subst.
Qed.

Lemma redis_addItem_ok u p q c (cart : Cart) :
  Client.fault c = None ->
  (RedisStore.getCart u c).1 = Ok cart ->
  RedisStore.addItem u p q c
  = (Ok tt, written (RedisStore.getCartKey u) (encode (merged cart p q)) c).
Proof.
  intros Hf H. unfold RedisStore.addItem.
  pose proof (redis_getCart_state u c) as Hs.
  destruct (RedisStore.getCart u c) as [r c1]. cbn [fst snd] in *. subst.
  rewrite serializeCart_encode. unfold Client.set, written. rewrite Hf. reflexivity.
Qed.

Lemma redis_emptyCart_ok u c :
  Client.fault c = None ->
  RedisStore.emptyCart u c
  = (Ok tt, written (RedisStore.getCartKey u) (encode (mkCart u [])) c).
Proof.
  intros Hf. unfold RedisStore.emptyCart. rewrite serializeCart_encode.
  unfold Client.set, written. rewrite Hf. reflexivity.
Qed.

Lemma redis_emptyCart_fault u c e :
  Client.fault c = Some e ->
  RedisStore.emptyCart u c = (Throw (RedisStore.storage_error e), c).
Proof.
  intros Hf. unfold RedisStore.emptyCart. rewrite serializeCart_encode.
  unfold Client.set, written. rewrite Hf. reflexivity.
Qed.

Lemma redis_getCart_written u c (cart : Cart) :
  Client.fault c = None ->
  RedisStore.getCart u (written (RedisStore.getCartKey u) (encode cart) c)
  = (Ok (wire cart), written (RedisStore.getCartKey u) (encode cart) c).
Proof.
  intros Hf. erewrite redis_getCart_present; [| done | apply lookup_insert_eq].
  by rewrite decode_encode.
Qed.

(** A fault leaves the result of [getCart] a failure. *)
Lemma redis_getCart_cases u c :
  (exists e, Client.fault c = Some e /\ (RedisStore.getCart u c).1 = Throw (RedisStore.storage_error e))
  \/ (Client.fault c = None /\ Client.keys c !! RedisStore.getCartKey u = None
      /\ (RedisStore.getCart u c).1 = Ok (mkCart u []))
  \/ (exists b, Client.fault c = None /\ Client.keys c !! RedisStore.getCartKey u = Some b
      /\ (RedisStore.getCart u c).1 = RedisStore.rethrow (decode b)).
Proof.
  destruct (Client.fault c) as [e|] eqn:Hf.
  - left. exists e. by rewrite (redis_getCart_fault _ _ e).
  - right. destruct (Client.keys c !! RedisStore.getCartKey u) as [b|] eqn:Hk.
    + right. exists b. by rewrite (redis_getCart_present _ _ b).
    + left. by rewrite redis_getCart_absent.
Qed.

Lemma redis_inv_written k (cart : Cart) c :
  redis_inv c -> NoDup (productIds (items cart)) ->
  redis_inv (written k (encode cart) c).
Proof.
  intros Hinv Hnd k' b. unfold written. simpl.
  destruct (decide (k = k')) as [->|Hne].
  - rewrite lookup_insert_eq. intros [= <-]. exists (wire cart).
    split; [apply decode_encode|]. unfold wire. simpl. by rewrite productIds_wire.
  - rewrite lookup_insert_ne by done. apply Hinv.
Qed.

Lemma redis_getCart_NoDup u c (cart : Cart) :
  redis_inv c -> (RedisStore.getCart u c).1 = Ok cart -> NoDup (productIds (items cart)).
Proof.
  intros Hinv H.
  destruct (redis_getCart_cases u c) as [[e [_ He]]|[[_ [_ He]]|[b [_ [Hk He]]]]];
    rewrite He in H.
  - discriminate.
  - injection H as <-. constructor.
  - destruct (Hinv _ _ Hk) as [cart' [Hd Hnd]]. rewrite Hd in H. simpl in H.
    by injection H as <-.
Qed.

Lemma redis_inv_run o c : redis_inv c -> redis_inv (run o c).
Proof.
  intros Hinv. destruct o as [u p q|u|u]; simpl.
  - destruct ((RedisStore.getCart u c).1) as [cart|e] eqn:Hg.
    + destruct (Client.fault c) as [e|] eqn:Hf.
      * rewrite (redis_getCart_fault _ _ e) in Hg by done. discriminate.
      * rewrite (redis_addItem_ok _ _ _ _ cart) by done. simpl.
        apply redis_inv_written; [done|]. simpl. apply NoDup_merge.
        by eapply redis_getCart_NoDup.
    + by rewrite (redis_addItem_throw _ _ _ _ e).
  - by rewrite redis_getCart_state.
  - destruct (Client.fault c) as [e|] eqn:Hf.
    + by rewrite (redis_emptyCart_fault _ _ e).
    + rewrite redis_emptyCart_ok by done. simpl.
      apply redis_inv_written; [done|]. constructor.
Qed.

Lemma redis_inv_reachable c : redis_reachable c -> redis_inv c.
Proof.
  induction 1 as [|o c _ IH|c f pg _ IH].
  - intros k b. unfold RedisStore.init. simpl. by rewrite lookup_empty.
  - by apply redis_inv_run.
  - exact IH.
Qed.

End Redis.

(** ** Validation in the request handlers *)

Section Validation.

Lemma trimStart_white_space_only (s : string) :
  white_space_only (trimStart s) = white_space_only s
  /\ (white_space_only s = true -> trimStart s = EmptyString).
Proof.
  remember (String.length s) as n eqn:Hn.
  revert s Hn. induction n as [n IH] using lt_wf_ind. intros s Hn.
  destruct s as [|c1 s1]; [done|]. cbn [trimStart white_space_only].
  destruct (is_white_space c1) eqn:E1.
  { apply (IH (String.length s1)); [simpl in Hn; lia | done]. }
  destruct s1 as [|c2 s2].
  { cbn [white_space_only]. rewrite E1. done. }
  destruct (is_white_space_2 c1 c2) eqn:E2.
  { apply (IH (String.length s2)); [simpl in Hn; lia | done]. }
  destruct s2 as [|c3 s3].
  { cbn [white_space_only]. rewrite E1, E2. done. }
  destruct (is_white_space_3 c1 c2 c3) eqn:E3.
  { apply (IH (String.length s3)); [simpl in Hn; lia | done]. }
  cbn [white_space_only]. rewrite E1, E2, E3. done.
Qed.

Lemma trimEnd_empty (s : string) : trimEnd s = EmptyString <-> white_space_only s = true.
Proof.
  destruct s as [|c s]; [done|]. cbn [trimEnd].
  destruct (white_space_only (String c s)); [done|]. split; discriminate.
Qed.

(** [s.trim() === ''] holds of the strings made of white space only. *)
Lemma trim_empty (s : string) : trim s = EmptyString <-> blank s = true.
Proof.
  unfold trim, blank. rewrite trimEnd_empty.
  by rewrite (proj1 (trimStart_white_space_only s)).
Qed.

(** [!s || s.trim() === ''] on a string that is present. *)
Lemma check_blank (s : string) :
  String.eqb s "" || String.eqb (trim s) "" = blank s.
Proof.
  destruct (blank s) eqn:E.
  - apply trim_empty in E. rewrite E. apply orb_true_r.
  - apply orb_false_iff. split; apply String.eqb_neq; intros H.
    + subst s. discriminate.
    + apply trim_empty in H. congruence.
Qed.

Lemma check_quantity (q : Z) : (q =? 0) || (q <=? 0) = (q <=? 0).
Proof. destruct (Z.eqb_spec q 0), (Z.leb_spec q 0); simpl; try done; lia. Qed.

Context {S : Type} `{store : CartStore.ICartStore S}.

Import Grpc.

Lemma addItem_invalid (request : Request.AddItem) (st : S) :
  invalid_addItem request = true ->
  exists message, CartHandler.addItem request st = (Error INVALID_ARGUMENT message, st).
Proof.
  destruct request as [[u|] i]; unfold invalid_addItem, CartHandler.addItem, CartHandler.addItem_with; simpl;
    [|eauto].
  rewrite check_blank. destruct (blank u); simpl; [eauto|].
  destruct i as [[[p|] q]|]; simpl; [| eauto | eauto].
  rewrite check_blank. destruct (blank p); simpl; [eauto|].
  destruct q as [q|]; simpl; [|eauto].
  rewrite check_quantity. intros ->. eauto.
Qed.

Lemma addItem_valid (request : Request.AddItem) (st : S) :
  invalid_addItem request = false ->
  exists u p q,
    request = Request.mkAddItem (Some u) (Some (Request.mkItem (Some p) (Some q)))
    /\ blank u = false /\ blank p = false /\ 0 < q
    /\ CartHandler.addItem request st = answer (fun _ => tt) (CartStore.addItem u p q st).
Proof.
  destruct request as [[u|] i]; unfold invalid_addItem, CartHandler.addItem, CartHandler.addItem_with; simpl;
    [|discriminate].
  destruct (blank u) eqn:Eu; simpl; [discriminate|].
  destruct i as [[[p|] q]|]; simpl; [| discriminate | discriminate].
  destruct (blank p) eqn:Ep; simpl; [discriminate|].
  destruct q as [q|]; simpl; [|discriminate].
  intros Hq. exists u, p, q. rewrite !check_blank, Eu, Ep, check_quantity, Hq.
  repeat split; [lia|]. unfold answer.
  destruct (CartStore.addItem u p q st) as [[[]|e] st']; reflexivity.
Qed.

Lemma getCart_invalid (request : Request.User) (st : S) :
  missing_or_blank (Request.user request) = true ->
  exists message, CartHandler.getCart request st = (Error INVALID_ARGUMENT message, st).
Proof.
  destruct request as [[u|]]; unfold CartHandler.getCart; simpl; [|eauto].
  rewrite check_blank. intros ->. eauto.
Qed.

Lemma getCart_valid (u : string) (st : S) :
  blank u = false ->
  CartHandler.getCart (Request.mkUser (Some u)) st
  = answer (fun cart => cart) (CartStore.getCart u st).
Proof.
  intros Hu. unfold CartHandler.getCart. simpl. rewrite check_blank, Hu.
  unfold answer. destruct (CartStore.getCart u st) as [[[v l]|e] st']; simpl; [|done].
  do 3 f_equal. induction l as [|[p q] l IH]; simpl; [done|]. by rewrite IH.
Qed.

Lemma emptyCart_invalid (request : Request.User) (st : S) :
  missing_or_blank (Request.user request) = true ->
  exists message, CartHandler.emptyCart request st = (Error INVALID_ARGUMENT message, st).
Proof.
  destruct request as [[u|]]; unfold CartHandler.emptyCart; simpl; [|eauto].
  rewrite check_blank. intros ->. eauto.
Qed.

End Validation.

(** ** Carts as the wire returns them *)

Section Wire.

Import Protobuf.

Lemma entries_wire (p : string) (l : list CartItem) :
  entries p (map wire_item l) = map wire_item (entries p l).
Proof.
  unfold entries. induction l as [|item l IH]; simpl; [done|].
  rewrite !filter_cons. simpl. destruct (decide (productId item = p)); simpl; by rewrite IH.
Qed.

Lemma others_wire (p : string) (l : list CartItem) :
  others p (map wire_item l) = map wire_item (others p l).
Proof.
  unfold others. induction l as [|item l IH]; simpl; [done|].
  destruct (decide (productId item = p)) as [H|H].
  - rewrite !filter_cons_False by (simpl; auto). apply IH.
  - rewrite !filter_cons_True by done. simpl. by rewrite IH.
Qed.

(** Two additions of the same product on the Remote Store. *)
Lemma redis_addItem_twice (u p : string) (q1 q2 : Z) (c : Client.t) (before : Cart) :
  Client.fault c = None ->
  (RedisStore.getCart u c).1 = Ok before ->
  (RedisStore.getCart u (run_all [AddItem u p q1; AddItem u p q2] c)).1
  = Ok (wire (merged (wire (merged before p q1)) p q2)).
Proof.
  intros Hf Hb. unfold run_all. simpl.
  rewrite (redis_addItem_ok u p q1 c before) by done. simpl.
  set (c1 := written _ _ c).
  assert (H1 : (RedisStore.getCart u c1).1 = Ok (wire (merged before p q1)))
    by (unfold c1; by rewrite redis_getCart_written).
  assert (Hf1 : Client.fault c1 = None) by done.
  rewrite (redis_addItem_ok _ _ _ _ _ Hf1 H1). simpl.
  by rewrite redis_getCart_written.
Qed.

End Wire.

(** ** Frame lemmas *)

Lemma wire_items_id (l : list CartItem) :
  Forall (fun item => int32_range (quantity item)) l -> map wire_item l = l.
Proof.
  induction 1 as [|item l Hi Hl IH]; simpl; [done|]. by rewrite wire_item_id, IH.
Qed.

Lemma redis_getCart_wire (u : string) (c : Client.t) (cart : Cart) :
  (RedisStore.getCart u c).1 = Ok cart -> wire_cart cart.
Proof.
  intros H.
  destruct (redis_getCart_cases u c) as [[e [_ He]]|[[_ [_ He]]|[b [_ [Hk He]]]]];
    rewrite He in H.
  - discriminate.
  - injection H as <-. constructor.
  - destruct (Protobuf.decode b) as [cart'|e] eqn:Hd; simpl in H; [|discriminate].
    injection H as <-. by eapply decode_range.
Qed.

Lemma redis_getCart_ok_fault (u : string) (c : Client.t) (cart : Cart) :
  (RedisStore.getCart u c).1 = Ok cart -> Client.fault c = None.
Proof.
  intros H. destruct (Client.fault c) as [e|] eqn:Hf; [|done].
  by rewrite (redis_getCart_fault u c e) in H.
Qed.

(** A write under one key leaves what [getCart] reads under another. *)
Lemma redis_getCart_written_other (u v : string) (b : Buffer) (c : Client.t) :
  v ≠ u ->
  (RedisStore.getCart v (written (RedisStore.getCartKey u) b c)).1
  = (RedisStore.getCart v c).1.
Proof.
  intros Hne. unfold RedisStore.getCart, Client.getBuffer, written. simpl.
  destruct (Client.fault c); [done|]. simpl.
  rewrite lookup_insert_ne; [done|]. intros H. by apply getCartKey_inj in H.
Qed.

(** [addItem] and [emptyCart] on the Remote Store either fail and leave the
    client as it was, or write under the key of their user. *)
Lemma redis_addItem_state (u p : string) (q : Z) (c : Client.t) :
  (RedisStore.addItem u p q c).2 = c
  \/ exists b, (RedisStore.addItem u p q c).2 = written (RedisStore.getCartKey u) b c.
Proof.
  destruct ((RedisStore.getCart u c).1) as [cart|e] eqn:Hg.
  - right. eexists. rewrite (redis_addItem_ok u p q c cart); [reflexivity | | done].
    by eapply redis_getCart_ok_fault.
  - left. by rewrite (redis_addItem_throw u p q c e).
Qed.

Lemma redis_emptyCart_state (u : string) (c : Client.t) :
  (RedisStore.emptyCart u c).2 = c
  \/ exists b, (RedisStore.emptyCart u c).2 = written (RedisStore.getCartKey u) b c.
Proof.
  destruct (Client.fault c) as [e|] eqn:Hf.
  - left. by rewrite (redis_emptyCart_fault u c e).
  - right. eexists. by rewrite redis_emptyCart_ok.
Qed.

Lemma written_other (u v : string) (b : Buffer) (c : Client.t) :
  v ≠ u ->
  Client.keys (written (RedisStore.getCartKey u) b c) !! RedisStore.getCartKey v
  = Client.keys c !! RedisStore.getCartKey v.
Proof.
  intros Hne. unfold written. simpl. rewrite lookup_insert_ne; [done|].
  intros H. by apply getCartKey_inj in H.
Qed.

(** ** The scenarios of the specification, run on both stores *)

Example scenario_1 :
  let ops := [AddItem "u1" "p1" 2; AddItem "u1" "p1" 3] in
  (MemoryStore.getCart "u1" (run_all ops MemoryStore.init)).1
  = Ok (mkCart "u1" [mkCartItem "p1" 5])
  /\ (RedisStore.getCart "u1" (run_all ops RedisStore.init)).1
     = Ok (mkCart "u1" [mkCartItem "p1" 5]).
Proof. split; vm_compute; reflexivity. Qed.

Example scenario_2 :
  (MemoryStore.getCart "ghost" MemoryStore.init).1 = Ok (mkCart "ghost" [])
  /\ (RedisStore.getCart "ghost" RedisStore.init).1 = Ok (mkCart "ghost" []).
Proof. split; reflexivity. Qed.

Example scenario_3 :
  let ops := [AddItem "u1" "p1" 2; AddItem "u1" "p2" 1; EmptyCart "u1"] in
  (MemoryStore.getCart "u1" (run_all ops MemoryStore.init)).1 = Ok (mkCart "u1" [])
  /\ (RedisStore.getCart "u1" (run_all ops RedisStore.init)).1 = Ok (mkCart "u1" []).
Proof. split; vm_compute; reflexivity. Qed.

Example scenario_4 :
  let request := Request.mkAddItem (Some "u1") (Some (Request.mkItem (Some "") (Some 1))) in
  CartHandler.addItem request MemoryStore.init
  = (Grpc.Error Grpc.INVALID_ARGUMENT "product_id is required", MemoryStore.init)
  /\ CartHandler.addItem request RedisStore.init
     = (Grpc.Error Grpc.INVALID_ARGUMENT "product_id is required", RedisStore.init).
Proof. split; reflexivity. Qed.

Example scenario_5 :
  RedisStore.serializeCart (mkCart "u1" [mkCartItem "p1" 5])
  = Ok [x0a; x02; x75; x31; x12; x06; x0a; x02; x70; x31; x10; x05]
  /\ RedisStore.deserializeCart [x0a; x02; x75; x31; x12; x06; x0a; x02; x70; x31; x10; x05]
     = Ok (mkCart "u1" [mkCartItem "p1" 5]).
Proof. split; vm_compute; reflexivity. Qed.

(** * The properties of the specification *)

(** C1, as stated, fails on the Remote Store: two additions of 2^30 of the
    same product to a fresh cart leave one entry whose quantity is -2^31,
    the 32-bit reading of the sum, and not 2^31. *)
Lemma C1_counterexample :
  let q := 1073741824 in
  (RedisStore.getCart "u1"
     (run_all [AddItem "u1" "p1" q; AddItem "u1" "p1" q] RedisStore.init)).1
  = Ok (mkCart "u1" [mkCartItem "p1" (-2147483648)])
  /\ mkCartItem "p1" (-2147483648) <> mkCartItem "p1" (q + q).
Proof. split; [vm_compute; reflexivity | discriminate]. Qed.

(** C1 (amended): for quantities [q1] and [q2] above zero whose sum is at
    most 2^53, so that the additions of these numbers are exact, and
    starting from a cart of [u] that holds no item for [p] (or from no
    cart), [addItem(u, p, q1)] followed by [addItem(u, p, q2)] leaves
    exactly one entry for [p] in [u]'s cart.  Its quantity is [q1 + q2] on
    the Local Store; on the Remote Store (whose backend answered the read of
    the cart before) it is the signed 32-bit reading of [q1 + q2], which is
    [q1 + q2] whenever the sum fits the [int32] field.  On both stores
    every cart reachable by sequential operations has at most one item per
    product. *)
Theorem C1_merge_on_product (u p : string) (q1 q2 : Z) :
  (forall carts : gmap string Cart,
      0 < q1 -> 0 < q2 -> q1 + q2 <= 2 ^ 53 ->
      p ∉ productIds (items (memory_cart carts u)) ->
      exists cart,
        (MemoryStore.getCart u (run_all [AddItem u p q1; AddItem u p q2] carts)).1 = Ok cart
        /\ entries p (items cart) = [mkCartItem p (q1 + q2)])
  /\ (forall (c : Client.t) (before : Cart),
      0 < q1 -> 0 < q2 -> q1 + q2 <= 2 ^ 53 ->
      (RedisStore.getCart u c).1 = Ok before ->
      p ∉ productIds (items before) ->
      exists cart,
        (RedisStore.getCart u (run_all [AddItem u p q1; AddItem u p q2] c)).1 = Ok cart
        /\ entries p (items cart) = [mkCartItem p (Protobuf.to_int32 (q1 + q2))]
        /\ (int32_range (q1 + q2) -> entries p (items cart) = [mkCartItem p (q1 + q2)]))
  /\ (forall st, memory_reachable st ->
      forall v cart, (MemoryStore.getCart v st).1 = Ok cart ->
                     NoDup (productIds (items cart)))
  /\ (forall st, redis_reachable st ->
      forall v cart, (RedisStore.getCart v st).1 = Ok cart ->
                     NoDup (productIds (items cart))).
Proof.
  split; [|split; [|split]].
  - intros carts _ _ _ Hm. eexists. rewrite memory_getCart. split; [reflexivity|].
    unfold run_all. cbn [foldl run CartStore.addItem MemoryStore.store].
    rewrite memory_addItem_cart. cbn [items]. rewrite memory_addItem_cart. cbn [items].
    by apply entries_merge_twice.
  - intros c before _ _ _ Hb Hr. pose proof (redis_getCart_ok_fault u c before Hb) as Hf.
    eexists. rewrite (redis_addItem_twice u p q1 q2 c before) by done.
    assert (He : entries p (items (wire (merged (wire (merged before p q1)) p q2)))
                 = [mkCartItem p (Protobuf.to_int32 (q1 + q2))]).
    { unfold wire, merged. cbn [items userId]. rewrite entries_wire.
      rewrite (entries_merge_present p q2 (Protobuf.to_int32 q1)).
      - simpl. unfold wire_item. simpl. by rewrite to_int32_add.
      - rewrite entries_wire, entries_merge_absent by done. reflexivity. }
    split; [reflexivity|]. split; [exact He|].
    intros Hq. rewrite He. by rewrite to_int32_id.
  - intros st Hst v cart. rewrite memory_getCart. intros [= <-].
    apply memory_inv_reachable in Hst. unfold memory_cart.
    destruct (st !! v) as [cart|] eqn:E; simpl; [by eapply Hst | constructor].
  - intros st Hst v cart. apply redis_getCart_NoDup. by apply redis_inv_reachable.
Qed.

Lemma C1_witness :
  (exists cart,
      (MemoryStore.getCart "u1"
         (run_all [AddItem "u1" "p1" 2; AddItem "u1" "p1" 3] MemoryStore.init)).1 = Ok cart
      /\ entries "p1" (items cart) = [mkCartItem "p1" (2 + 3)])
  /\ (exists cart,
      (RedisStore.getCart "u1"
         (run_all [AddItem "u1" "p1" 2; AddItem "u1" "p1" 3] RedisStore.init)).1 = Ok cart
      /\ entries "p1" (items cart) = [mkCartItem "p1" (2 + 3)]).
Proof.
  destruct (C1_merge_on_product "u1" "p1" 2 3) as [Hm [Hr _]]. split.
  - apply (Hm MemoryStore.init); [lia | lia | lia |]. vm_compute. apply not_elem_of_nil.
  - destruct (Hr RedisStore.init (mkCart "u1" [])) as [cart [Hg [_ Hq]]].
    + lia.
    + lia.
    + lia.
    + reflexivity.
    + simpl. apply not_elem_of_nil.
    + exists cart. split; [exact Hg|]. apply Hq. unfold int32_range. simpl. lia.
Defined.

(** C2: on both stores, [getCart(u)] for a user without a record returns
    the empty cart [{userId: u, items: []}] and raises nothing.  (On the
    Remote Store the absence is what the reachable backend reports for the
    key of [u].) *)
Theorem C2_absent_cart_is_empty (u : string) :
  (forall carts : gmap string Cart,
      carts !! u = None ->
      MemoryStore.getCart u carts = (Ok (mkCart u []), carts))
  /\ (forall c : Client.t,
      (Client.getBuffer (RedisStore.getCartKey u) c).1 = Ok None ->
      RedisStore.getCart u c = (Ok (mkCart u []), c)).
Proof.
  split.
  - intros carts Hm. unfold MemoryStore.getCart. by rewrite Hm.
  - intros c Hr. unfold Client.getBuffer in Hr.
    destruct (Client.fault c) eqn:Hf; [discriminate|].
    simpl in Hr. injection Hr as Hk. by apply redis_getCart_absent.
Qed.

Lemma C2_witness :
  MemoryStore.getCart "never-seen" MemoryStore.init
  = (Ok (mkCart "never-seen" []), MemoryStore.init)
  /\ RedisStore.getCart "never-seen" RedisStore.init
     = (Ok (mkCart "never-seen" []), RedisStore.init).
Proof.
  destruct (C2_absent_cart_is_empty "never-seen") as [Hm Hr]. split.
  - apply Hm. reflexivity.
  - apply Hr. reflexivity.
Defined.

(** C3: whatever the store held for [u], [emptyCart(u)] leaves the record
    [{userId: u, items: []}] under [u]'s key (the key is present, not
    removed), a following [getCart(u)] returns that empty cart, and a second
    [emptyCart(u)] changes nothing.  (On the Remote Store, with the backend
    reachable; the record is the encoding of the empty cart.) *)
Theorem C3_emptyCart (u : string) :
  (forall carts : gmap string Cart,
      let carts' := (MemoryStore.emptyCart u carts).2 in
      MemoryStore.emptyCart u carts = (Ok tt, carts')
      /\ carts' !! u = Some (mkCart u [])
      /\ MemoryStore.getCart u carts' = (Ok (mkCart u []), carts')
      /\ MemoryStore.emptyCart u carts' = (Ok tt, carts'))
  /\ (forall c : Client.t,
      Client.fault c = None ->
      let c' := (RedisStore.emptyCart u c).2 in
      RedisStore.emptyCart u c = (Ok tt, c')
      /\ Client.keys c' !! RedisStore.getCartKey u = Some (Protobuf.encode (mkCart u []))
      /\ RedisStore.getCart u c' = (Ok (mkCart u []), c')
      /\ RedisStore.emptyCart u c' = (Ok tt, c')).
Proof.
  split.
  - intros carts. cbn zeta. unfold MemoryStore.emptyCart, MemoryStore.getCart. simpl.
    rewrite lookup_insert_eq, insert_insert_eq. done.
  - intros c Hf. cbn zeta. rewrite redis_emptyCart_ok by done. cbn [snd].
    set (c' := written _ _ c). assert (Hf' : Client.fault c' = None) by done.
    repeat split.
    + unfold c', written. simpl. apply lookup_insert_eq.
    + unfold c'. by rewrite redis_getCart_written.
    + rewrite redis_emptyCart_ok by done. f_equal. unfold c', written. simpl.
      by rewrite insert_insert_eq.
Qed.

Lemma C3_witness :
  let c := run_all [AddItem "u1" "p1" 2; AddItem "u1" "p2" 1] RedisStore.init in
  let c' := (RedisStore.emptyCart "u1" c).2 in
  RedisStore.emptyCart "u1" c = (Ok tt, c')
  /\ Client.keys c' !! RedisStore.getCartKey "u1"
     = Some (Protobuf.encode (mkCart "u1" []))
  /\ RedisStore.getCart "u1" c' = (Ok (mkCart "u1" []), c')
  /\ RedisStore.emptyCart "u1" c' = (Ok tt, c').
Proof.
  intros c. apply (proj2 (C3_emptyCart "u1") c). reflexivity.
Defined.

(** C4, as stated, fails for a cart whose quantity is outside the [int32]
    range of the schema: 2^31 is written as the 32-bit pattern that reads
    back as -2^31. *)
Lemma C4_counterexample :
  let cart := mkCart "u1" [mkCartItem "p1" 2147483648] in
  exists buffer,
    RedisStore.serializeCart cart = Ok buffer
    /\ RedisStore.deserializeCart buffer = Ok (mkCart "u1" [mkCartItem "p1" (-2147483648)])
    /\ mkCart "u1" [mkCartItem "p1" (-2147483648)] <> cart.
Proof. eexists. split; [reflexivity|]. split; [vm_compute; reflexivity | discriminate]. Qed.

(** C4 (amended): for every cart whose quantities are in the [int32] range
    of the schema, deserializing its serialization yields the cart itself,
    and the bytes are those of the layout of §6: read as fields of the wire
    format, the buffer is field 1, the string [userId], followed by one
    field 2 per item, each an embedded message made of field 1, the string
    [productId], and field 2, the varint of the [int32] [quantity]. *)
Theorem C4_codec_round_trip (cart : Cart) :
  wire_cart cart ->
  exists buffer,
    RedisStore.serializeCart cart = Ok buffer
    /\ RedisStore.deserializeCart buffer = Ok cart
    /\ buffer = Layout.Cart cart
    /\ WireFormat.fields buffer
       = Ok (WireFormat.mk 1 2 (WireFormat.string (userId cart))
             :: map (fun item =>
                       WireFormat.mk 2 2 (WireFormat.Bytes (Layout.CartItem item)))
                    (items cart))
    /\ Forall (fun item =>
                 WireFormat.fields (Layout.CartItem item)
                 = Ok [WireFormat.mk 1 2 (WireFormat.string (productId item));
                       WireFormat.mk 2 0 (WireFormat.int32 (quantity item))])
              (items cart).
Proof.
  intros H. exists (Protobuf.encode cart). split; [apply serializeCart_encode|].
  split; [|split; [|split]].
  - rewrite (deserialize_serialize cart) by apply serializeCart_encode.
    by rewrite wire_id.
  - reflexivity.
  - apply fields_Cart.
  - eapply Forall_impl; [exact H|]. intros item Hq. by apply fields_CartItem.
Qed.

Lemma C4_witness :
  exists buffer,
    RedisStore.serializeCart (mkCart "u1" [mkCartItem "p1" 5]) = Ok buffer
    /\ RedisStore.deserializeCart buffer = Ok (mkCart "u1" [mkCartItem "p1" 5])
    /\ buffer = [x0a; x02; x75; x31; x12; x06; x0a; x02; x70; x31; x10; x05].
Proof.
  destruct (C4_codec_round_trip (mkCart "u1" [mkCartItem "p1" 5]))
    as [buffer [Hs [Hd [Hl _]]]].
  - apply Forall_singleton. unfold int32_range. simpl. lia.
  - exists buffer. split; [exact Hs|]. split; [exact Hd|]. rewrite Hl. reflexivity.
Defined.

(** C5: a request that fails validation is answered [INVALID_ARGUMENT] and
    the store is left exactly as it was.  The statement is about the
    recording store over any backend: its state holds the backend's state
    and the log of the calls made, so no storage operation was invoked.  A
    blank identifier is one made of white space only, in the sense of
    [trim]: the no-break space of the last example counts. *)
Theorem C5_validation_never_persists {S : Type} `{CartStore.ICartStore S}
    (st : Spy.t S) :
  (forall request, invalid_addItem request = true ->
     exists message,
       CartHandler.addItem request st = (Grpc.Error Grpc.INVALID_ARGUMENT message, st))
  /\ (forall request, missing_or_blank (Request.user request) = true ->
     exists message,
       CartHandler.getCart request st = (Grpc.Error Grpc.INVALID_ARGUMENT message, st))
  /\ (forall request, missing_or_blank (Request.user request) = true ->
     exists message,
       CartHandler.emptyCart request st = (Grpc.Error Grpc.INVALID_ARGUMENT message, st)).
Proof.
  split; [|split]; intros request Hr.
  - by apply addItem_invalid.
  - by apply getCart_invalid.
  - by apply emptyCart_invalid.
Qed.

Lemma C5_witness :
  let st := Spy.mk (run_all [AddItem "u" "p" 1] MemoryStore.init) [] in
  (exists message,
     CartHandler.addItem
       (Request.mkAddItem (Some "u") (Some (Request.mkItem (Some "") (Some 1)))) st
     = (Grpc.Error Grpc.INVALID_ARGUMENT message, st))
  /\ (exists message,
     CartHandler.addItem
       (Request.mkAddItem (Some "u") (Some (Request.mkItem (Some "p") (Some 0)))) st
     = (Grpc.Error Grpc.INVALID_ARGUMENT message, st))
  /\ (exists message,
     CartHandler.getCart (Request.mkUser (Some "  ")) st
     = (Grpc.Error Grpc.INVALID_ARGUMENT message, st))
  /\ (exists message,
     CartHandler.emptyCart (Request.mkUser None) st
     = (Grpc.Error Grpc.INVALID_ARGUMENT message, st))
  /\ (exists message,
     CartHandler.getCart
       (Request.mkUser (Some (String "194" (String "160" EmptyString)))) st
     = (Grpc.Error Grpc.INVALID_ARGUMENT message, st)).
Proof.
  intros st. destruct (C5_validation_never_persists st) as [Ha [Hg He]].
  split; [|split; [|split; [|split]]].
  - apply Ha. reflexivity.
  - apply Ha. reflexivity.
  - apply Hg. reflexivity.
  - apply He. reflexivity.
  - apply Hg. reflexivity.
Defined.

(** C6, as stated, fails in its integer half: the handler tests the sign
    of the quantity and nothing else.  Called with the quantity 3/2 it
    passes validation and calls the storage [addItem] with 3/2, which is no
    integer. *)
Lemma C6_counterexample :
  let request :=
    Request.mkAddItem (Some "u1") (Some (Request.mkItem (Some "p1") (Some (Qmake 3 2)))) in
  CartHandler.addItem_with Spy.receive request []
  = (Grpc.Value tt, [("u1", "p1", Qmake 3 2)])
  /\ forall z : Z, ~ Qeq (Qmake 3 2) (inject_Z z).
Proof.
  split; [vm_compute; reflexivity|].
  intros z. unfold Qeq, inject_Z. simpl. lia.
Qed.

(** C6 (amended): the request handler calls the storage [addItem] at most
    once, and when it does, the quantity it passes is the request's, a
    number above zero (and the user and product identifiers are not blank);
    for a missing or non-positive quantity it makes no storage call.  That
    the quantity is an integer is not tested by the handler: it holds of
    the requests whose quantity is the [int32] field of the request message.
    The first part is about such requests, on the recording store over any
    backend; the second is about requests with numbers of any kind, where
    above zero means that neither [!quantity] nor [quantity <= 0] holds. *)
Theorem C6_storage_receives_positive_quantity {S : Type} `{CartStore.ICartStore S}
    (st : Spy.t S) (request : Request.AddItem) :
  (exists new,
    Spy.calls (CartHandler.addItem request st).2 = Spy.calls st ++ new
    /\ Forall Spy.positive_quantity new
    /\ (new = []
        \/ exists u p q,
             new = [Spy.AddItem u p q] /\ 0 < q /\ blank u = false /\ blank p = false
             /\ request = Request.mkAddItem (Some u) (Some (Request.mkItem (Some p) (Some q))))
    /\ (forall item, Request.item request = Some item ->
          missing_or_not_positive (Request.quantity item) = true -> new = []))
  /\ (forall (N : Type) (number : Number.t N) (request : Request.AddItemOf N)
             (log : Spy.received N),
        let log' := (CartHandler.addItem_with Spy.receive request log).2 in
        log' = log
        \/ exists u p q,
             log' = log ++ [(u, p, q)]
             /\ request = Request.mkAddItem (Some u) (Some (Request.mkItem (Some p) (Some q)))
             /\ Number.falsy q = false /\ Number.le_zero q = false
             /\ blank u = false /\ blank p = false).
Proof.
  split.
  - destruct (invalid_addItem request) eqn:E.
    + exists []. destruct (addItem_invalid request st E) as [m ->]. simpl.
      rewrite app_nil_r. repeat split; auto.
    + destruct (addItem_valid request st E) as [u [p [q [-> [Hu [Hp [Hq ->]]]]]]].
      exists [Spy.AddItem u p q]. split; [|split; [|split]].
      * unfold answer. simpl.
        by destruct (CartStore.addItem u p q (Spy.inner st)) as [[[]|e] s'].
      * repeat constructor. exact Hq.
      * right. exists u, p, q. done.
      * simpl. intros item [= <-]. simpl. intros Hle. apply Z.leb_le in Hle. lia.
  - clear. intros N number [[u|] i] log; unfold CartHandler.addItem_with;
      cbn [Request.user_id Request.item]; [|by left].
    rewrite check_blank. destruct (blank u) eqn:Eu; [by left|].
    destruct i as [[[p|] q]|]; cbn [Request.product_id Request.quantity];
      [|by left|by left].
    rewrite check_blank. destruct (blank p) eqn:Ep; [by left|].
    destruct q as [q|]; [|by left].
    destruct (Number.falsy q) eqn:Ef; [by left|].
    destruct (Number.le_zero q) eqn:El; [by left|].
    right. exists u, p, q. done.
Qed.

(** C7, as stated, fails on both counts.  Malformed bytes can be returned
    as an empty cart without any failure: a record whose string field
    announces five bytes where one follows decodes, the string ending with
    the buffer, to the cart of user [a] with no items, and a record of
    another schema (field 3, a varint) to the cart with no user and no
    items.  And where the decoder does throw, as on a record that ends
    after the key of its first field, the failure is not of a class of its
    own: [getCart] throws the [Can't access cart storage: ...] error that
    an unreachable backend gives, equal to it when the backend's fault
    carries the decoder's message, and the handler answers
    [FAILED_PRECONDITION] to both. *)
Lemma C7_counterexample :
  let request := Request.mkUser (Some "u1") in
  let stored (b : Buffer) := Client.mk {[ RedisStore.getCartKey "u1" := b ]} None "PONG" in
  let cut_short := stored [x0a; x05; x61] in
  let other_schema := stored [x18; x07] in
  let truncated := stored [x0a] in
  let closed := Client.mk ∅ (Some "Connection is closed.") "PONG" in
  RedisStore.getCart "u1" cut_short = (Ok (mkCart "a" []), cut_short)
  /\ (CartHandler.getCart request cut_short).1 = Grpc.Value (mkCart "a" [])
  /\ RedisStore.getCart "u1" other_schema = (Ok (mkCart "" []), other_schema)
  /\ exists e,
       RedisStore.deserializeCart [x0a] = Throw e
       /\ (RedisStore.getCart "u1" truncated).1 = Throw (RedisStore.storage_error e)
       /\ (RedisStore.getCart "u1" truncated).1
          = (RedisStore.getCart "u1" (Client.mk ∅ (Some e) "PONG")).1
       /\ Grpc.code_of (CartHandler.getCart request truncated).1 = Grpc.FAILED_PRECONDITION
       /\ Grpc.code_of (CartHandler.getCart request closed).1 = Grpc.FAILED_PRECONDITION.
Proof.
  cbn zeta. split; [vm_compute; reflexivity|]. split; [vm_compute; reflexivity|].
  split; [vm_compute; reflexivity|]. eexists.
  split; [vm_compute; reflexivity|]. repeat split; vm_compute; reflexivity.
Qed.

(** C7 (amended): in the Remote Store the read path has one failure for
    every cause and checks nothing beyond what the decoder checks.  Stored
    bytes on which the decoder throws make [getCart] throw: it returns no
    cart for them, the error is the [Can't access cart storage: <detail>]
    error that also reports an unreachable backend, and the request handler
    answers [FAILED_PRECONDITION] to it.  Stored bytes that the decoder
    accepts are returned as the cart they decode to, whatever it is. *)
Theorem C7_decode_failure_is_reported (u : string) (c : Client.t) (b : Buffer) :
  Client.fault c = None ->
  Client.keys c !! RedisStore.getCartKey u = Some b ->
  (forall e, RedisStore.deserializeCart b = Throw e ->
     RedisStore.getCart u c = (Throw (RedisStore.storage_error e), c)
     /\ (forall cart, (RedisStore.getCart u c).1 <> Ok cart)
     /\ (blank u = false ->
         CartHandler.getCart (Request.mkUser (Some u)) c
         = (Grpc.Error Grpc.FAILED_PRECONDITION
              (CartHandler.failed (RedisStore.storage_error e)), c))
     /\ (RedisStore.getCart u (Client.mk (Client.keys c) (Some e) (Client.pong c))).1
        = (RedisStore.getCart u c).1)
  /\ (forall cart, RedisStore.deserializeCart b = Ok cart ->
     RedisStore.getCart u c = (Ok cart, c)).
Proof.
  intros Hf Hk. split.
  - intros e Hd. rewrite deserializeCart_decode in Hd.
    assert (Hg : RedisStore.getCart u c = (Throw (RedisStore.storage_error e), c)).
    { rewrite (redis_getCart_present u c b) by done. by rewrite Hd. }
    split; [exact Hg|]. split; [|split].
    + intros cart. by rewrite Hg.
    + intros Hu. rewrite getCart_valid by done. unfold answer.
      cbn [CartStore.getCart RedisStore.store]. by rewrite Hg.
    + rewrite Hg. by rewrite (redis_getCart_fault u _ e).
  - intros cart Hd. rewrite deserializeCart_decode in Hd.
    rewrite (redis_getCart_present u c b) by done. by rewrite Hd.
Qed.

Lemma C7_witness :
  let c := Client.mk {[ RedisStore.getCartKey "u1" := [x0a] ]} None "PONG" in
  exists e,
    RedisStore.getCart "u1" c = (Throw (RedisStore.storage_error e), c)
    /\ CartHandler.getCart (Request.mkUser (Some "u1")) c
       = (Grpc.Error Grpc.FAILED_PRECONDITION
            (CartHandler.failed (RedisStore.storage_error e)), c).
Proof.
  intros c. exists Protobuf.Reader.indexOutOfRange.
  destruct (C7_decode_failure_is_reported "u1" c [x0a]) as [Ht _].
  - reflexivity.
  - vm_compute. reflexivity.
  - destruct (Ht Protobuf.Reader.indexOutOfRange) as (Hg & _ & Hh & _).
    + vm_compute. reflexivity.
    + split; [exact Hg | apply Hh; reflexivity].
Defined.

(** C8: [ping] returns a boolean and never throws.  The Local Store answers
    [true]; the Remote Store answers [true] exactly when the client's [PING]
    returns the reply ['PONG'], and [false] for any other reply and for a
    failure of the client.  The health check answers [SERVING] exactly when
    the store's [ping] returns [true], and [NOT_SERVING] otherwise, also
    when the [ping] of a store throws; it raises nothing itself. *)
Theorem C8_ping_and_health :
  (forall carts : gmap string Cart, MemoryStore.ping carts = (Ok true, carts))
  /\ (forall c : Client.t,
        exists b, RedisStore.ping c = (Ok b, c)
                  /\ (b = true <-> (Client.ping c).1 = Ok "PONG"))
  /\ (forall (S : Type) (store : CartStore.ICartStore S) (st : S),
        HealthHandler.check st
        = (Grpc.Value (match (CartStore.ping st).1 with
                       | Ok true => HealthHandler.SERVING
                       | _ => HealthHandler.NOT_SERVING
                       end), (CartStore.ping st).2)).
Proof.
  split; [done|]. split.
  - intros c. unfold RedisStore.ping, Client.ping.
    destruct (Client.fault c) as [e|]; simpl.
    + exists false. split; [done|]. split; discriminate.
    + eexists. split; [reflexivity|]. rewrite String.eqb_eq. split; congruence.
  - intros S store st. unfold HealthHandler.check.
    by destruct (CartStore.ping st) as [[[]|e] st'].
Qed.

(** C9: [addItem(u, p, q)] and [emptyCart(u)] leave the record of every
    other user [v] as it was, on both stores.  Within [u]'s cart,
    [addItem(u, p, q)] leaves the items of the other products as they were,
    with their quantities and in their order: if [p] is in the cart the
    sequence of products is unchanged, and if it is not, one item for [p] is
    appended at the end. *)
Theorem C9_frame (u p : string) (q : Z) :
  (forall (v : string) (carts : gmap string Cart),
      v ≠ u ->
      (MemoryStore.addItem u p q carts).2 !! v = carts !! v
      /\ (MemoryStore.emptyCart u carts).2 !! v = carts !! v)
  /\ (forall (v : string) (c : Client.t),
      v ≠ u ->
      Client.keys (RedisStore.addItem u p q c).2 !! RedisStore.getCartKey v
      = Client.keys c !! RedisStore.getCartKey v
      /\ Client.keys (RedisStore.emptyCart u c).2 !! RedisStore.getCartKey v
         = Client.keys c !! RedisStore.getCartKey v
      /\ (RedisStore.getCart v (RedisStore.addItem u p q c).2).1
         = (RedisStore.getCart v c).1
      /\ (RedisStore.getCart v (RedisStore.emptyCart u c).2).1
         = (RedisStore.getCart v c).1)
  /\ (forall carts : gmap string Cart,
      let before := items (memory_cart carts u) in
      let after := items (memory_cart (MemoryStore.addItem u p q carts).2 u) in
      others p after = others p before
      /\ (p ∈ productIds before -> productIds after = productIds before)
      /\ (p ∉ productIds before -> after = before ++ [mkCartItem p q]))
  /\ (forall (c : Client.t) (before after : Cart),
      (RedisStore.getCart u c).1 = Ok before ->
      (RedisStore.getCart u (RedisStore.addItem u p q c).2).1 = Ok after ->
      others p (items after) = others p (items before)
      /\ (p ∈ productIds (items before) ->
          productIds (items after) = productIds (items before))
      /\ (p ∉ productIds (items before) ->
          items after = items before ++ [mkCartItem p (Protobuf.to_int32 q)])).
Proof.
  split; [|split; [|split]].
  - intros v carts Hne.
    split; [by apply memory_addItem_other | by apply memory_emptyCart_other].
  - intros v c Hne. repeat split.
    + destruct (redis_addItem_state u p q c) as [->|[b ->]]; [done|].
      by apply written_other.
    + destruct (redis_emptyCart_state u c) as [->|[b ->]]; [done|].
      by apply written_other.
    + destruct (redis_addItem_state u p q c) as [->|[b ->]]; [done|].
      by apply redis_getCart_written_other.
    + destruct (redis_emptyCart_state u c) as [->|[b ->]]; [done|].
      by apply redis_getCart_written_other.
  - intros carts. cbn zeta. rewrite memory_addItem_cart. cbn [items]. repeat split.
    + apply others_merge.
    + apply productIds_merge_present.
    + apply merge_absent.
  - intros c before after Hb Ha.
    pose proof (redis_getCart_ok_fault u c before Hb) as Hf.
    pose proof (redis_getCart_wire u c before Hb) as Hw.
    rewrite (redis_addItem_ok u p q c before) in Ha by done. cbn [snd] in Ha.
    rewrite redis_getCart_written in Ha by done. injection Ha as <-.
    unfold wire, merged. cbn [items userId]. repeat split.
    + rewrite others_wire, others_merge, <- others_wire. by rewrite wire_items_id.
    + intros Hp. rewrite productIds_wire. by apply productIds_merge_present.
    + intros Hp. rewrite merge_absent by done. rewrite map_app. simpl.
      by rewrite wire_items_id.
Qed.

Lemma C9_witness :
  let carts := run_all [AddItem "u1" "p1" 2; AddItem "u2" "p1" 1] MemoryStore.init in
  let c := run_all [AddItem "u1" "p1" 2; AddItem "u2" "p1" 1] RedisStore.init in
  (MemoryStore.addItem "u1" "p2" 1 carts).2 !! "u2" = carts !! "u2"
  /\ (RedisStore.getCart "u2" (RedisStore.addItem "u1" "p2" 1 c).2).1
     = (RedisStore.getCart "u2" c).1
  /\ items (memory_cart (MemoryStore.addItem "u1" "p2" 1 carts).2 "u1")
     = [mkCartItem "p1" 2; mkCartItem "p2" 1].
Proof.
  intros carts c.
  destruct (C9_frame "u1" "p2" 1) as [Hm [Hr [Hl _]]].
  split; [|split].
  - apply (Hm "u2" carts). discriminate.
  - apply (Hr "u2" c). discriminate.
  - apply (Hl carts). vm_compute. intros H. inversion H as [| ? ? ? H']; inversion H'.
Defined.

(** C10: [getCart] leaves the state of the backend as it was, on both
    stores and for every user; for a user without a record it creates none.
    The same holds of the request handler's [getCart]. *)
Theorem C10_getCart_is_read_only (u : string) (carts : gmap string Cart) (c : Client.t) :
  (MemoryStore.getCart u carts).2 = carts
  /\ (RedisStore.getCart u c).2 = c
  /\ (carts !! u = None -> (MemoryStore.getCart u carts).2 !! u = None)
  /\ (Client.keys c !! RedisStore.getCartKey u = None ->
      Client.keys (RedisStore.getCart u c).2 !! RedisStore.getCartKey u = None)
  /\ (forall request, (CartHandler.getCart request carts).2 = carts)
  /\ (forall request, (CartHandler.getCart request c).2 = c).
Proof.
  assert (Hm : forall v, (MemoryStore.getCart v carts).2 = carts)
    by (intros v; by rewrite memory_getCart).
  repeat split.
  - apply Hm.
  - apply redis_getCart_state.
  - by rewrite Hm.
  - by rewrite redis_getCart_state.
  - intros [[v|]]; unfold CartHandler.getCart; simpl; [|done].
    destruct (_ || _); [done|]. specialize (Hm v).
    by destruct (MemoryStore.getCart v carts) as [[cart|e] st'].
  - intros [[v|]]; unfold CartHandler.getCart; simpl; [|done].
    destruct (_ || _); [done|]. pose proof (redis_getCart_state v c) as Hr.
    by destruct (RedisStore.getCart v c) as [[cart|e] st'].
Qed.

(** * Further properties of the code *)

(** * Further properties of the code *)

(** ** The two stores side by side *)

Lemma wire_item_idemp (item : CartItem) : wire_item (wire_item item) = wire_item item.
Proof. unfold wire_item. simpl. by rewrite to_int32_idemp. Qed.

Lemma wire_increment (p : string) (q : Z) (l : list CartItem) :
  map wire_item (increment p q (map wire_item l)) = map wire_item (increment p q l).
Proof.
  induction l as [|item l IH]; simpl; [done|].
  unfold same_product. simpl. destruct (String.eqb (productId item) p); simpl.
  - unfold wire_item at 1. simpl. rewrite to_int32_add.
    f_equal. rewrite map_map. apply map_ext. intros a. apply wire_item_idemp.
  - by rewrite wire_item_idemp, IH.
Qed.

Lemma wire_merge (p : string) (q : Z) (l : list CartItem) :
  map wire_item (merge p q (map wire_item l)) = map wire_item (merge p q l).
Proof.
  destruct (decide (p ∈ productIds l)) as [H|H].
  - rewrite !merge_present by (by rewrite ?productIds_wire). apply wire_increment.
  - rewrite !merge_absent by (by rewrite ?productIds_wire).
    rewrite !map_app, map_map. f_equal. apply map_ext. intros a. apply wire_item_idemp.
Qed.

Lemma wire_merged (cart : Cart) (p : string) (q : Z) :
  wire (merged (wire cart) p q) = wire (merged cart p q).
Proof. unfold wire, merged. simpl. by rewrite wire_merge. Qed.

Lemma memory_cart_other (carts carts' : gmap string Cart) (v : string) :
  carts' !! v = carts !! v -> memory_cart carts' v = memory_cart carts v.
Proof. unfold memory_cart. by intros ->. Qed.

Lemma follows_run (o : operation) (carts : gmap string Cart) (c : Client.t) :
  follows carts c -> follows (run o carts) (run o c).
Proof.
  intros [Hf Hg]. destruct o as [u p q|u|u]; unfold run;
    cbn [CartStore.addItem CartStore.getCart CartStore.emptyCart
         MemoryStore.store RedisStore.store].
  - rewrite (redis_addItem_ok u p q c _ Hf (Hg u)). cbn [snd]. split; [done|].
    intros v. destruct (decide (v = u)) as [->|Hne].
    + rewrite redis_getCart_written by done. cbn [fst].
      rewrite memory_addItem_cart. by rewrite wire_merged.
    + rewrite redis_getCart_written_other by done.
      rewrite (memory_cart_other carts) by (by apply memory_addItem_other). apply Hg.
  - rewrite redis_getCart_state. by rewrite memory_getCart.
  - rewrite redis_emptyCart_ok by done. cbn [snd]. split; [done|].
    intros v. destruct (decide (v = u)) as [->|Hne].
    + rewrite redis_getCart_written by done. cbn [fst].
      unfold memory_cart, MemoryStore.emptyCart. cbn [snd]. by rewrite lookup_insert_eq.
    + rewrite redis_getCart_written_other by done.
      rewrite (memory_cart_other carts) by (by apply memory_emptyCart_other). apply Hg.
Qed.

Lemma follows_run_all (ops : list operation) (carts : gmap string Cart) (c : Client.t) :
  follows carts c -> follows (run_all ops carts) (run_all ops c).
Proof.
  revert carts c. induction ops as [|o ops IH]; intros carts c H; [done|].
  apply IH. by apply follows_run.
Qed.

Lemma follows_init : follows MemoryStore.init RedisStore.init.
Proof. split; [done|]. intros u. reflexivity. Qed.

(** X1: the two stores agree up to the wire.  After a run of sequential
    operations from the empty stores whose arithmetic is exact (quantities
    above zero, at most 2^53 in all), [getCart(u)] on the Remote Store
    succeeds and returns the cart that the Local Store holds for [u] after
    the same run, with each quantity read as a signed 32-bit integer; when
    those quantities fit the [int32] field, the two stores return the same
    cart. *)
Theorem X1_remote_follows_local (ops : list operation) (u : string) :
  exact_run ops ->
  let local := memory_cart (run_all ops MemoryStore.init) u in
  (RedisStore.getCart u (run_all ops RedisStore.init)).1 = Ok (wire local)
  /\ (wire_cart local ->
      (RedisStore.getCart u (run_all ops RedisStore.init)).1
      = (MemoryStore.getCart u (run_all ops MemoryStore.init)).1).
Proof.
  intros _. cbn zeta. destruct (follows_run_all ops _ _ follows_init) as [_ H].
  split; [apply H|]. intros Hw. rewrite H, memory_getCart. simpl. by rewrite wire_id.
Qed.

Lemma X1_witness :
  let ops := [AddItem "u1" "p1" 1073741824; AddItem "u2" "p2" 7;
              AddItem "u1" "p1" 1073741824; EmptyCart "u2"] in
  memory_cart (run_all ops MemoryStore.init) "u1"
  = mkCart "u1" [mkCartItem "p1" 2147483648]
  /\ (RedisStore.getCart "u1" (run_all ops RedisStore.init)).1
     = Ok (mkCart "u1" [mkCartItem "p1" (-2147483648)]).
Proof.
  intros ops. split; [vm_compute; reflexivity|].
  destruct (X1_remote_follows_local ops "u1") as [H _].
  - split; [repeat constructor; simpl; lia | simpl; lia].
  - etransitivity; [exact H|]. vm_compute. reflexivity.
Defined.

(** ** What a cart holds after a run of operations *)

Lemma quantity_of_nil (p : string) : quantity_of p [] = 0.
Proof. reflexivity. Qed.

Lemma quantity_of_cons (p : string) (item : CartItem) (l : list CartItem) :
  quantity_of p (item :: l)
  = (if decide (productId item = p) then quantity item else 0) + quantity_of p l.
Proof.
  unfold quantity_of, entries. rewrite filter_cons.
  destruct (decide (productId item = p)); simpl; lia.
Qed.

Lemma quantity_of_app (p : string) (l k : list CartItem) :
  quantity_of p (l ++ k) = quantity_of p l + quantity_of p k.
Proof.
  induction l as [|item l IH]; simpl; [by rewrite quantity_of_nil|].
  rewrite !quantity_of_cons, IH. lia.
Qed.

Lemma quantity_of_absent (p : string) (l : list CartItem) :
  p ∉ productIds l -> quantity_of p l = 0.
Proof. intros H. unfold quantity_of. by rewrite entries_absent. Qed.

Lemma quantity_of_increment (p p' : string) (q : Z) (l : list CartItem) :
  p ∈ productIds l ->
  quantity_of p' (increment p q l)
  = quantity_of p' l + (if decide (p' = p) then q else 0).
Proof.
  induction l as [|item l IH]; simpl; [by intros ?%elem_of_nil|].
  intros Hin. destruct (same_product p item) eqn:E.
  - apply same_product_true in E. rewrite !quantity_of_cons. simpl. rewrite E.
    destruct (decide (p = p')), (decide (p' = p)); try congruence; lia.
  - apply same_product_false in E. rewrite !quantity_of_cons.
    apply elem_of_cons in Hin as [Hin|Hin]; [congruence|].
    rewrite IH by done. lia.
Qed.

Lemma quantity_of_merge (p p' : string) (q : Z) (l : list CartItem) :
  quantity_of p' (merge p q l)
  = quantity_of p' l + (if decide (p' = p) then q else 0).
Proof.
  destruct (decide (p ∈ productIds l)) as [H|H].
  - rewrite merge_present by done. by apply quantity_of_increment.
  - rewrite merge_absent by done. rewrite quantity_of_app, quantity_of_cons. simpl.
    rewrite quantity_of_nil.
    destruct (decide (p = p')), (decide (p' = p)); try congruence; lia.
Qed.

Lemma elem_of_productIds_merge (p p' : string) (q : Z) (l : list CartItem) :
  p' ∈ productIds (merge p q l) <-> p' = p \/ p' ∈ productIds l.
Proof.
  destruct (decide (p ∈ productIds l)) as [H|H].
  - rewrite productIds_merge_present by done. split; [auto|]. by intros [->|?].
  - rewrite productIds_merge_absent by done. rewrite elem_of_app, list_elem_of_singleton.
    tauto.
Qed.

Lemma run_all_snoc {S : Type} `{CartStore.ICartStore S} (ops : list operation)
      (o : operation) (st : S) :
  run_all (ops ++ [o]) st = run o (run_all ops st).
Proof. unfold run_all. by rewrite foldl_snoc. Qed.

(** X2: what the Local Store holds is what was added.  After a run of
    sequential operations from the empty store whose arithmetic is exact
    (quantities above zero, at most 2^53 in all), the cart of [u] has an
    entry for product [p] exactly when [p] was added for [u] since the cart
    was last emptied, and the quantity it holds for [p] is the sum of the
    quantities added since then. *)
Theorem X2_local_cart_is_the_tally (ops : list operation) (u p : string) :
  exact_run ops ->
  let l := items (memory_cart (run_all ops MemoryStore.init) u) in
  quantity_of p l = tally u p ops
  /\ (p ∈ productIds l <-> held u p ops = true).
Proof.
  intros _. cbn zeta. induction ops as [|o ops IH] using rev_ind.
  - split; [reflexivity|]. split; [by intros ?%elem_of_nil | discriminate].
  - destruct IH as [IHq IHh]. rewrite run_all_snoc.
    unfold tally, held in *. rewrite !foldl_snoc.
    set (carts := run_all ops MemoryStore.init) in *.
    destruct o as [u' p' q|u'|u']; unfold run;
      cbn [CartStore.addItem CartStore.getCart CartStore.emptyCart MemoryStore.store
           tally_step held_step].
    + destruct (decide (u' = u)) as [->|Hne].
      * rewrite memory_addItem_cart. cbn [items].
        rewrite quantity_of_merge, elem_of_productIds_merge, IHq, IHh.
        destruct (decide (u = u /\ p' = p)) as [[_ ->]|Hn].
        -- rewrite decide_True by done. split; [done|]. split; auto.
        -- assert (p ≠ p') by (intros ->; by apply Hn).
           rewrite decide_False by done. split; [lia|]. split; [|auto].
           by intros [?|?].
      * rewrite (memory_cart_other carts) by (by apply memory_addItem_other).
        rewrite !decide_False by (by intros [? _]). by split.
    + rewrite memory_getCart. by split.
    + destruct (decide (u' = u)) as [->|Hne].
      * unfold memory_cart, MemoryStore.emptyCart. cbn [snd].
        rewrite lookup_insert_eq. simpl. split; [reflexivity|].
        split; [by intros ?%elem_of_nil | discriminate].
      * rewrite (memory_cart_other carts) by (by apply memory_emptyCart_other).
        by split.
Qed.

Lemma X2_witness :
  let ops := [AddItem "u1" "p1" 2; AddItem "u1" "p2" 5; EmptyCart "u1";
              AddItem "u1" "p1" 3; AddItem "u2" "p1" 9; AddItem "u1" "p1" 4] in
  let l := items (memory_cart (run_all ops MemoryStore.init) "u1") in
  quantity_of "p1" l = 7 /\ "p1" ∈ productIds l /\ "p2" ∉ productIds l.
Proof.
  intros ops l.
  assert (He : exact_run ops) by (split; [repeat constructor; simpl; lia | simpl; lia]).
  destruct (X2_local_cart_is_the_tally ops "u1" "p1" He) as [Hq Hh].
  destruct (X2_local_cart_is_the_tally ops "u1" "p2" He) as [_ Hn].
  split; [exact Hq|]. split.
  - apply Hh. reflexivity.
  - intros Hin. apply Hn in Hin. discriminate Hin.
Defined.

(** ** The merge, entry by entry *)

Lemma increment_first (p : string) (q : Z) (l1 l2 : list CartItem) (item : CartItem) :
  p ∉ productIds l1 -> productId item = p ->
  increment p q (l1 ++ item :: l2)
  = l1 ++ mkCartItem p (quantity item + q) :: l2.
Proof.
  intros H1 Hp. induction l1 as [|a l1 IH]; simpl.
  - apply same_product_true in Hp as Hs. rewrite Hs. by rewrite Hp.
  - apply not_elem_of_cons in H1 as [Ha H1].
    assert (Hs : same_product p a = false) by (apply same_product_false; congruence).
    rewrite Hs. by rewrite IH.
Qed.

(** X3: [addItem] touches one entry.  If the cart holds an item for [p],
    the first such item gets the quantity added and every other item, also a
    later item of the same product, stays as it is and where it is; if it
    holds none, one item is appended.  The cart never gets shorter and grows
    by at most one item. *)
Theorem X3_merge_touches_one_entry (p : string) (q : Z) (l : list CartItem) :
  (forall l1 l2 item,
      l = l1 ++ item :: l2 -> p ∉ productIds l1 -> productId item = p ->
      merge p q l = l1 ++ mkCartItem p (quantity item + q) :: l2)
  /\ (p ∉ productIds l -> merge p q l = l ++ [mkCartItem p q])
  /\ length (merge p q l)
     = (if decide (p ∈ productIds l) then length l else S (length l)).
Proof.
  split; [|split].
  - intros l1 l2 item -> H1 Hp. rewrite merge_present.
    + by apply increment_first.
    + unfold productIds. rewrite map_app. apply elem_of_app. right. simpl.
      rewrite Hp. apply list_elem_of_here.
  - apply merge_absent.
  - destruct (decide (p ∈ productIds l)) as [H|H].
    + rewrite <- (length_map productId (merge p q l)).
      change (map productId (merge p q l)) with (productIds (merge p q l)).
      rewrite productIds_merge_present by done. unfold productIds. by rewrite length_map.
    + rewrite merge_absent by done. rewrite length_app. simpl. lia.
Qed.

(** ** The user of a cart *)

Lemma memory_owned_run (o : operation) (carts : gmap string Cart) :
  memory_owned carts -> memory_owned (run o carts).
Proof.
  intros Hinv. destruct o as [u p q|u|u]; unfold run;
    cbn [CartStore.addItem CartStore.getCart CartStore.emptyCart MemoryStore.store].
  - intros v cart. unfold MemoryStore.addItem. cbn [snd].
    destruct (decide (u = v)) as [->|Hne].
    + rewrite lookup_insert_eq. intros [= <-]. cbn [userId].
      destruct (carts !! v) as [cart|] eqn:E; simpl; [by eapply Hinv | done].
    + rewrite lookup_insert_ne by done. apply Hinv.
  - by rewrite memory_getCart.
  - intros v cart. unfold MemoryStore.emptyCart. cbn [snd].
    destruct (decide (u = v)) as [->|Hne].
    + rewrite lookup_insert_eq. by intros [= <-].
    + rewrite lookup_insert_ne by done. apply Hinv.
Qed.

Lemma memory_owned_reachable (carts : gmap string Cart) :
  memory_reachable carts -> memory_owned carts.
Proof.
  induction 1 as [|o carts _ IH].
  - intros u cart. unfold MemoryStore.init. by rewrite lookup_empty.
  - by apply memory_owned_run.
Qed.

Lemma redis_getCart_owned (u : string) (c : Client.t) (cart : Cart) :
  redis_owned c -> (RedisStore.getCart u c).1 = Ok cart -> userId cart = u.
Proof.
  intros Hinv H.
  destruct (redis_getCart_cases u c) as [[e [_ He]]|[[_ [_ He]]|[b [_ [Hk He]]]]];
    rewrite He in H.
  - discriminate.
  - by injection H as <-.
  - destruct (Hinv _ _ Hk) as [u' [cart' [Hkey [Hd Hu]]]].
    apply getCartKey_inj in Hkey. subst u'. rewrite Hd in H. simpl in H.
    by injection H as <-.
Qed.

Lemma redis_owned_written (u : string) (cart : Cart) (c : Client.t) :
  redis_owned c -> userId cart = u ->
  redis_owned (written (RedisStore.getCartKey u) (Protobuf.encode cart) c).
Proof.
  intros Hinv Hu k b. unfold written. cbn [Client.keys].
  destruct (decide (RedisStore.getCartKey u = k)) as [<-|Hne].
  - rewrite lookup_insert_eq. intros [= <-]. exists u, (wire cart).
    split; [done|]. split; [apply decode_encode | done].
  - rewrite lookup_insert_ne by done. apply Hinv.
Qed.

Lemma redis_owned_run (o : operation) (c : Client.t) :
  redis_owned c -> redis_owned (run o c).
Proof.
  intros Hinv. destruct o as [u p q|u|u]; unfold run;
    cbn [CartStore.addItem CartStore.getCart CartStore.emptyCart RedisStore.store].
  - destruct ((RedisStore.getCart u c).1) as [cart|e] eqn:Hg.
    + rewrite (redis_addItem_ok u p q c cart); [|by eapply redis_getCart_ok_fault|done].
      cbn [snd]. apply redis_owned_written; [done|]. cbn [merged userId].
      by eapply redis_getCart_owned.
    + by rewrite (redis_addItem_throw u p q c e).
  - by rewrite redis_getCart_state.
  - destruct (Client.fault c) as [e|] eqn:Hf.
    + by rewrite (redis_emptyCart_fault u c e).
    + rewrite redis_emptyCart_ok by done. cbn [snd]. by apply redis_owned_written.
Qed.

Lemma redis_owned_reachable (c : Client.t) : redis_reachable c -> redis_owned c.
Proof.
  induction 1 as [|o c _ IH|c f pg _ IH].
  - intros k b. unfold RedisStore.init. cbn [Client.keys]. by rewrite lookup_empty.
  - by apply redis_owned_run.
  - exact IH.
Qed.

(** X4: in every state reached by sequential operations, on both stores,
    a record is kept under the identifier of the user of its cart.  In the
    Local Store the cart under [u] has the user identifier [u]; in the
    Remote Store every key is [cart:] followed by a user identifier, and
    its bytes decode to a cart with that user identifier.  So the cart that
    [getCart(u)] returns carries [u]. *)
Theorem X4_cart_of_its_user (u : string) (cart : Cart) :
  (forall carts, memory_reachable carts ->
     (carts !! u = Some cart -> userId cart = u)
     /\ ((MemoryStore.getCart u carts).1 = Ok cart -> userId cart = u))
  /\ (forall c, redis_reachable c ->
     (forall k b, Client.keys c !! k = Some b ->
        exists v cart', k = ("cart:" +:+ v)%string
                        /\ Protobuf.decode b = Ok cart' /\ userId cart' = v)
     /\ ((RedisStore.getCart u c).1 = Ok cart -> userId cart = u)).
Proof.
  split.
  - intros carts Hr. apply memory_owned_reachable in Hr. split; [apply Hr|].
    rewrite memory_getCart. intros [= <-]. unfold memory_cart.
    destruct (carts !! u) as [c0|] eqn:E; simpl; [by eapply Hr | done].
  - intros c Hr. apply redis_owned_reachable in Hr. split; [exact Hr|].
    by apply redis_getCart_owned.
Qed.

(** ** Serialization in general *)

(** X5: what a cart comes back as.  For a cart whose quantities are
    integers not below -2^63, serialization succeeds and its result
    deserializes to the cart with each quantity read as a signed 32-bit
    integer: the user, the products, their order and their number are
    kept, and a quantity outside the [int32] range comes back as its low 32
    bits.  The cart that comes back goes through serialization and
    deserialization unchanged. *)
Theorem X5_serialize_then_deserialize (cart : Cart) :
  Forall (fun item => - 2 ^ 63 <= quantity item) (items cart) ->
  exists buffer,
    RedisStore.serializeCart cart = Ok buffer
    /\ RedisStore.deserializeCart buffer = Ok (wire cart)
    /\ userId (wire cart) = userId cart
    /\ productIds (items (wire cart)) = productIds (items cart)
    /\ map quantity (items (wire cart))
       = map Protobuf.to_int32 (map quantity (items cart))
    /\ exists buffer',
         RedisStore.serializeCart (wire cart) = Ok buffer'
         /\ RedisStore.deserializeCart buffer' = Ok (wire cart).
Proof.
  intros _. exists (Protobuf.encode cart). split; [apply serializeCart_encode|].
  split; [by apply deserialize_serialize, serializeCart_encode|].
  split; [done|]. split; [apply productIds_wire|].
  split; [unfold wire; cbn [items]; by rewrite !map_map|].
  exists (Protobuf.encode (wire cart)). split; [apply serializeCart_encode|].
  rewrite (deserialize_serialize (wire cart)) by apply serializeCart_encode.
  by rewrite wire_id by apply wire_cart_wire.
Qed.

Lemma X5_witness :
  let cart := mkCart "u1" [mkCartItem "p1" 5; mkCartItem "p2" 2147483648;
                           mkCartItem "p3" (-1); mkCartItem "p4" 4294967299] in
  exists buffer,
    RedisStore.serializeCart cart = Ok buffer
    /\ RedisStore.deserializeCart buffer
       = Ok (mkCart "u1" [mkCartItem "p1" 5; mkCartItem "p2" (-2147483648);
                          mkCartItem "p3" (-1); mkCartItem "p4" 3]).
Proof.
  intros cart.
  destruct (X5_serialize_then_deserialize cart) as (buffer & Hs & Hd & _).
  - repeat constructor; simpl; lia.
  - exists buffer. split; [exact Hs|]. etransitivity; [exact Hd|].
    vm_compute. reflexivity.
Defined.

(** ** Failures of the Remote Store *)

(** X7: a record on which the decoder throws blocks [addItem] and is
    repaired by [emptyCart].  With such bytes under the key of [u] and the
    backend reachable, [addItem(u, p, q)] throws and leaves the bytes where
    they are, while [emptyCart(u)] succeeds, as it writes without reading;
    after it [addItem(u, p, q)], for a quantity above zero, succeeds and
    the cart of [u] is the one item added. *)
Theorem X7_corrupt_record (u p : string) (q : Z) (c : Client.t) (b : Buffer) (e : string) :
  Client.fault c = None ->
  Client.keys c !! RedisStore.getCartKey u = Some b ->
  RedisStore.deserializeCart b = Throw e ->
  0 < q ->
  RedisStore.addItem u p q c
  = (Throw (RedisStore.storage_error (RedisStore.storage_error e)), c)
  /\ (RedisStore.emptyCart u c).1 = Ok tt
  /\ (let c' := (RedisStore.emptyCart u c).2 in
      (RedisStore.addItem u p q c').1 = Ok tt
      /\ (RedisStore.getCart u (RedisStore.addItem u p q c').2).1
         = Ok (mkCart u [mkCartItem p (Protobuf.to_int32 q)])).
Proof.
  intros Hf Hk Hd _. rewrite deserializeCart_decode in Hd.
  assert (Hg : (RedisStore.getCart u c).1 = Throw (RedisStore.storage_error e)).
  { rewrite (redis_getCart_present u c b) by done. by rewrite Hd. }
  split; [by apply redis_addItem_throw|].
  rewrite redis_emptyCart_ok by done. split; [done|]. cbn zeta. cbn [snd].
  set (c' := written _ _ c). assert (Hf' : Client.fault c' = None) by done.
  assert (Hg' : (RedisStore.getCart u c').1 = Ok (mkCart u [])).
  { unfold c'. by rewrite redis_getCart_written. }
  rewrite (redis_addItem_ok u p q c' (mkCart u []) Hf' Hg'). split; [done|].
  cbn [snd]. by rewrite redis_getCart_written.
Qed.

Lemma X7_witness :
  let c := Client.mk {[ RedisStore.getCartKey "u1" := [x0a] ]} None "PONG" in
  (exists e,
     RedisStore.addItem "u1" "p1" 2 c
     = (Throw (RedisStore.storage_error (RedisStore.storage_error e)), c))
  /\ (RedisStore.getCart "u1"
        (RedisStore.addItem "u1" "p1" 2 (RedisStore.emptyCart "u1" c).2).2).1
     = Ok (mkCart "u1" [mkCartItem "p1" 2]).
Proof.
  intros c.
  destruct (X7_corrupt_record "u1" "p1" 2 c [x0a] Protobuf.Reader.indexOutOfRange)
    as [Ha [_ [_ Hg]]].
  - reflexivity.
  - vm_compute. reflexivity.
  - vm_compute. reflexivity.
  - lia.
  - split; [by eexists | exact Hg].
Defined.

(** ** The answers of the request handlers *)

Section Answers.

Context {S : Type} `{store : CartStore.ICartStore S}.

Import Grpc.

Lemma emptyCart_valid (u : string) (st : S) :
  blank u = false ->
  CartHandler.emptyCart (Request.mkUser (Some u)) st
  = answer (fun _ => tt) (CartStore.emptyCart u st).
Proof.
  intros Hu. unfold CartHandler.emptyCart. simpl. rewrite check_blank, Hu.
  unfold answer. by destruct (CartStore.emptyCart u st) as [[[]|e] st'].
Qed.

Lemma code_of_answer {A B : Type} (f : A -> B) (r : result A * S) :
  code_of (answer f r).1 <> INVALID_ARGUMENT.
Proof. unfold answer. by destruct r as [[a|e] st']. Qed.

Lemma addItem_code (request : Request.AddItem) (st : S) :
  code_of (CartHandler.addItem request st).1 = INVALID_ARGUMENT
  <-> invalid_addItem request = true.
Proof.
  split.
  - intros Hc. destruct (invalid_addItem request) eqn:E; [done|].
    destruct (addItem_valid request st E) as (u & p & q & _ & _ & _ & _ & Hr).
    rewrite Hr in Hc. by apply code_of_answer in Hc.
  - intros E. destruct (addItem_invalid request st E) as [message Hr]. by rewrite Hr.
Qed.

Lemma getCart_code (request : Request.User) (st : S) :
  code_of (CartHandler.getCart request st).1 = INVALID_ARGUMENT
  <-> missing_or_blank (Request.user request) = true.
Proof.
  split.
  - intros Hc. destruct request as [[u|]]; [|done]. simpl.
    destruct (blank u) eqn:E; [done|]. rewrite getCart_valid in Hc by done.
    by apply code_of_answer in Hc.
  - intros E. destruct (getCart_invalid request st E) as [message Hr]. by rewrite Hr.
Qed.

Lemma emptyCart_code (request : Request.User) (st : S) :
  code_of (CartHandler.emptyCart request st).1 = INVALID_ARGUMENT
  <-> missing_or_blank (Request.user request) = true.
Proof.
  split.
  - intros Hc. destruct request as [[u|]]; [|done]. simpl.
    destruct (blank u) eqn:E; [done|]. rewrite emptyCart_valid in Hc by done.
    by apply code_of_answer in Hc.
  - intros E. destruct (emptyCart_invalid request st E) as [message Hr]. by rewrite Hr.
Qed.

End Answers.

(** X8: over any store, the status of a handler's answer is decided in two
    steps.  It is [INVALID_ARGUMENT] exactly for the requests that fail
    validation.  For every other request the handler makes the one storage
    call of its operation with the request's own arguments: it answers the
    value when the call returns, [FAILED_PRECONDITION] with the message
    [Can't access cart storage: ] followed by the error's message when the
    call throws, and the state is the one the call left. *)
Theorem X8_status_of_an_answer {S : Type} `{CartStore.ICartStore S} (st : S) :
  (forall request,
      Grpc.code_of (CartHandler.addItem request st).1 = Grpc.INVALID_ARGUMENT
      <-> invalid_addItem request = true)
  /\ (forall request,
      Grpc.code_of (CartHandler.getCart request st).1 = Grpc.INVALID_ARGUMENT
      <-> missing_or_blank (Request.user request) = true)
  /\ (forall request,
      Grpc.code_of (CartHandler.emptyCart request st).1 = Grpc.INVALID_ARGUMENT
      <-> missing_or_blank (Request.user request) = true)
  /\ (forall request, invalid_addItem request = false ->
      exists u p q,
        request = Request.mkAddItem (Some u) (Some (Request.mkItem (Some p) (Some q)))
        /\ CartHandler.addItem request st
           = match (CartStore.addItem u p q st).1 with
             | Ok _ => (Grpc.Value tt, (CartStore.addItem u p q st).2)
             | Throw e =>
                 (Grpc.Error Grpc.FAILED_PRECONDITION ("Can't access cart storage: " +:+ e),
                  (CartStore.addItem u p q st).2)
             end)
  /\ (forall u, blank u = false ->
      CartHandler.getCart (Request.mkUser (Some u)) st
      = match (CartStore.getCart u st).1 with
        | Ok cart => (Grpc.Value cart, (CartStore.getCart u st).2)
        | Throw e =>
            (Grpc.Error Grpc.FAILED_PRECONDITION ("Can't access cart storage: " +:+ e),
             (CartStore.getCart u st).2)
        end)
  /\ (forall u, blank u = false ->
      CartHandler.emptyCart (Request.mkUser (Some u)) st
      = match (CartStore.emptyCart u st).1 with
        | Ok _ => (Grpc.Value tt, (CartStore.emptyCart u st).2)
        | Throw e =>
            (Grpc.Error Grpc.FAILED_PRECONDITION ("Can't access cart storage: " +:+ e),
             (CartStore.emptyCart u st).2)
        end).
Proof.
  split; [intros; apply addItem_code|]. split; [intros; apply getCart_code|].
  split; [intros; apply emptyCart_code|]. split; [|split].
  - intros request E.
    destruct (addItem_valid request st E) as (u & p & q & -> & _ & _ & _ & Hr).
    exists u, p, q. split; [done|]. by rewrite Hr.
  - intros u Hu. by rewrite getCart_valid.
  - intros u Hu. by rewrite emptyCart_valid.
Qed.

(** X9: over the Local Store no handler ever answers
    [FAILED_PRECONDITION]: a request is rejected by validation or served.
    A served [AddItem(u, p, q)] followed by [GetCart(u)] answers a cart of
    [u] in which the quantity of [p] is [q] more than before and the items
    of the other products are as before; this for a cart whose quantities
    are not negative and stay within 2^53 when [q] is added, so that the
    addition is exact. *)
Theorem X9_local_store_answers (carts : gmap string Cart) :
  (forall request,
      Grpc.code_of (CartHandler.addItem request carts).1 <> Grpc.FAILED_PRECONDITION)
  /\ (forall request,
      Grpc.code_of (CartHandler.getCart request carts).1 <> Grpc.FAILED_PRECONDITION)
  /\ (forall request,
      Grpc.code_of (CartHandler.emptyCart request carts).1 <> Grpc.FAILED_PRECONDITION)
  /\ (forall u p q, blank u = false -> blank p = false -> 0 < q ->
      Forall (fun item => 0 <= quantity item /\ quantity item + q <= 2 ^ 53)
             (items (memory_cart carts u)) ->
      let request :=
        Request.mkAddItem (Some u) (Some (Request.mkItem (Some p) (Some q))) in
      let before := memory_cart carts u in
      (CartHandler.addItem request carts).1 = Grpc.Value tt
      /\ exists cart,
           (CartHandler.getCart (Request.mkUser (Some u))
              (CartHandler.addItem request carts).2).1 = Grpc.Value cart
           /\ userId cart = userId before
           /\ quantity_of p (items cart) = quantity_of p (items before) + q
           /\ others p (items cart) = others p (items before)).
Proof.
  split; [|split; [|split]].
  - intros request. destruct (invalid_addItem request) eqn:E.
    + destruct (addItem_invalid request carts E) as [message Hr]. by rewrite Hr.
    + destruct (addItem_valid request carts E) as (u & p & q & _ & _ & _ & _ & Hr).
      by rewrite Hr.
  - intros [[u|]]; [|done]. destruct (blank u) eqn:E.
    + destruct (getCart_invalid (Request.mkUser (Some u)) carts E) as [message Hr].
      by rewrite Hr.
    + rewrite getCart_valid by done. cbn [CartStore.getCart MemoryStore.store].
      by rewrite memory_getCart.
  - intros [[u|]]; [|done]. destruct (blank u) eqn:E.
    + destruct (emptyCart_invalid (Request.mkUser (Some u)) carts E) as [message Hr].
      by rewrite Hr.
    + by rewrite emptyCart_valid.
  - intros u p q Hu Hp Hq _ request before.
    assert (E : invalid_addItem request = false).
    { unfold invalid_addItem, request. simpl. rewrite Hu, Hp. simpl.
      apply Z.leb_gt. lia. }
    destruct (addItem_valid request carts E) as (u' & p' & q' & Heq & _ & _ & _ & Hr).
    injection Heq as <- <- <-. rewrite Hr.
    cbn [CartStore.addItem MemoryStore.store]. unfold answer.
    change ((MemoryStore.addItem u p q carts).1) with (Ok (A := unit) tt).
    split; [done|]. cbn [snd]. rewrite getCart_valid by done.
    cbn [CartStore.getCart MemoryStore.store]. rewrite memory_getCart.
    unfold answer. cbn [fst snd]. eexists. split; [reflexivity|].
    rewrite memory_addItem_cart. fold before. cbn [merged userId items].
    split; [done|]. split; [|apply others_merge].
    rewrite quantity_of_merge. by rewrite decide_True.
Qed.

(** X10: with the backend of the Remote Store unreachable, every request
    that passes validation is answered [FAILED_PRECONDITION] and the state is
    as before.  Each layer puts its prefix before the client's message:
    twice for [GetCart] and [EmptyCart], three times for [AddItem], whose
    read of the cart fails first.  The health check answers
    [NOT_SERVING]. *)
Theorem X10_unreachable_backend (c : Client.t) (e : string) :
  Client.fault c = Some e ->
  let prefix := "Can't access cart storage: " in
  (forall u p q, blank u = false -> blank p = false -> 0 < q ->
     CartHandler.addItem
       (Request.mkAddItem (Some u) (Some (Request.mkItem (Some p) (Some q)))) c
     = (Grpc.Error Grpc.FAILED_PRECONDITION (prefix +:+ prefix +:+ prefix +:+ e), c))
  /\ (forall u, blank u = false ->
      CartHandler.getCart (Request.mkUser (Some u)) c
      = (Grpc.Error Grpc.FAILED_PRECONDITION (prefix +:+ prefix +:+ e), c))
  /\ (forall u, blank u = false ->
      CartHandler.emptyCart (Request.mkUser (Some u)) c
      = (Grpc.Error Grpc.FAILED_PRECONDITION (prefix +:+ prefix +:+ e), c))
  /\ HealthHandler.check c = (Grpc.Value HealthHandler.NOT_SERVING, c).
Proof.
  intros Hf prefix. split; [|split; [|split]].
  - intros u p q Hu Hp Hq.
    set (request := Request.mkAddItem _ _).
    assert (E : invalid_addItem request = false).
    { unfold invalid_addItem, request. simpl. rewrite Hu, Hp. simpl.
      apply Z.leb_gt. lia. }
    destruct (addItem_valid request c E) as (u' & p' & q' & Heq & _ & _ & _ & Hr).
    injection Heq as <- <- <-. rewrite Hr.
    cbn [CartStore.addItem RedisStore.store].
    rewrite (redis_addItem_throw u p q c (RedisStore.storage_error e))
      by (by rewrite (redis_getCart_fault u c e)).
    done.
  - intros u Hu. rewrite getCart_valid by done.
    cbn [CartStore.getCart RedisStore.store].
    by rewrite (redis_getCart_fault u c e).
  - intros u Hu. rewrite emptyCart_valid by done.
    cbn [CartStore.emptyCart RedisStore.store].
    by rewrite (redis_emptyCart_fault u c e).
  - unfold HealthHandler.check. cbn [CartStore.ping RedisStore.store].
    unfold RedisStore.ping, Client.ping. by rewrite Hf.
Qed.

Lemma X10_witness :
  let c := Client.mk ∅ (Some "Connection is closed.") "PONG" in
  CartHandler.getCart (Request.mkUser (Some "u1")) c
  = (Grpc.Error Grpc.FAILED_PRECONDITION
       "Can't access cart storage: Can't access cart storage: Connection is closed.", c)
  /\ HealthHandler.check c = (Grpc.Value HealthHandler.NOT_SERVING, c).
Proof.
  intros c.
  destruct (X10_unreachable_backend c "Connection is closed.") as [_ [Hg [_ Hh]]].
  - reflexivity.
  - split; [|exact Hh]. rewrite Hg by reflexivity. reflexivity.
Defined.

(** X11: the storage calls of [GetCart], [EmptyCart] and the health check,
    seen on the recording store over any backend.  A [GetCart] or
    [EmptyCart] request with a user identifier that is not blank makes one
    call, of its own operation and for that user; with a missing or blank
    one it makes none.  The health check makes one [ping] and nothing
    else. *)
Theorem X11_storage_calls_of_a_request {S : Type} `{CartStore.ICartStore S}
    (st : Spy.t S) :
  (forall request,
      Spy.calls (CartHandler.getCart request st).2
      = Spy.calls st
        ++ match Request.user request with
           | Some u => if blank u then [] else [Spy.GetCart u]
           | None => []
           end)
  /\ (forall request,
      Spy.calls (CartHandler.emptyCart request st).2
      = Spy.calls st
        ++ match Request.user request with
           | Some u => if blank u then [] else [Spy.EmptyCart u]
           | None => []
           end)
  /\ Spy.calls (HealthHandler.check st).2 = Spy.calls st ++ [Spy.Ping].
Proof.
  split; [|split].
  - intros [[u|]]; cbn [Request.user]; [|by rewrite app_nil_r].
    destruct (blank u) eqn:E.
    + destruct (getCart_invalid (Request.mkUser (Some u)) st E) as [message Hr].
      rewrite Hr. by rewrite app_nil_r.
    + rewrite getCart_valid by done. unfold answer. simpl.
      by destruct (CartStore.getCart u (Spy.inner st)) as [[cart|e] s'].
  - intros [[u|]]; cbn [Request.user]; [|by rewrite app_nil_r].
    destruct (blank u) eqn:E.
    + destruct (emptyCart_invalid (Request.mkUser (Some u)) st E) as [message Hr].
      rewrite Hr. by rewrite app_nil_r.
    + rewrite emptyCart_valid by done. unfold answer. simpl.
      by destruct (CartStore.emptyCart u (Spy.inner st)) as [[[]|e] s'].
  - unfold HealthHandler.check. simpl.
    by destruct (CartStore.ping (Spy.inner st)) as [[[]|e] s'].
Qed.

(** ** The decoder on bytes that the encoder did not write alone *)

Section Decoder.

Import Protobuf.













End Decoder.



(** ** The size of what the encoder writes *)

Section Sizes.

Import Protobuf.

(** A varint of a number below [2^(7k)] takes at most [k] bytes. *)
Lemma write_varint_le (fuel : nat) (n : N) (k : nat) :
  (1 <= k)%nat -> (n < 2 ^ (7 * N.of_nat k))%N ->
  (length (Writer.write_varint fuel n) <= k)%nat.
Proof.
  revert n k. induction fuel as [|fuel IH]; intros n k Hk Hn; [simpl; lia|].
  cbn [Writer.write_varint]. destruct (N.ltb_spec n 128) as [Hs|Hs]; [simpl; lia|].
  cbn [length]. destruct k as [|[|k]]; [lia| |].
  - exfalso. change (2 ^ (7 * N.of_nat 1))%N with 128%N in Hn. lia.
  - apply le_n_S, IH; [lia|].
    apply N.Div0.div_lt_upper_bound.
    replace (7 * N.of_nat (S (S k)))%N with (7 + 7 * N.of_nat (S k))%N in Hn by lia.
    rewrite N.pow_add_r in Hn. exact Hn.
Qed.

(** A varint of a number from [2^(7k)] on takes more than [k] bytes. *)
Lemma write_varint_gt (fuel : nat) (n : N) (k : nat) :
  (n < 2 ^ N.of_nat fuel)%N -> (2 ^ (7 * N.of_nat k) <= n)%N ->
  (k < length (Writer.write_varint fuel n))%nat.
Proof.
  revert n k. induction fuel as [|fuel IH]; intros n k Hf Hn.
  - exfalso. simpl in Hf. assert (0 < 2 ^ (7 * N.of_nat k))%N
      by (apply N.neq_0_lt_0, N.pow_nonzero; lia). lia.
  - cbn [Writer.write_varint]. destruct (N.ltb_spec n 128) as [Hs|Hs].
    + destruct k as [|k]; [simpl; lia|]. exfalso.
      replace (7 * N.of_nat (S k))%N with (7 + 7 * N.of_nat k)%N in Hn by lia.
      rewrite N.pow_add_r in Hn.
      assert (0 < 2 ^ (7 * N.of_nat k))%N by (apply N.neq_0_lt_0, N.pow_nonzero; lia).
      change (2 ^ 7)%N with 128%N in Hn. nia.
    + cbn [length]. destruct k as [|k]; [lia|]. apply -> Nat.succ_lt_mono. apply IH.
      * rewrite Nat2N.inj_succ, N.pow_succ_r' in Hf.
        apply N.Div0.div_lt_upper_bound.
        assert (0 < 2 ^ N.of_nat fuel)%N by (apply N.neq_0_lt_0, N.pow_nonzero; lia).
        nia.
      * apply N.div_le_lower_bound; [lia|].
        replace (7 * N.of_nat (S k))%N with (7 + 7 * N.of_nat k)%N in Hn by lia.
        rewrite N.pow_add_r in Hn. exact Hn.
Qed.

Lemma varint_le (n : N) (k : nat) :
  (1 <= k)%nat -> (n < 2 ^ (7 * N.of_nat k))%N -> (length (Writer.varint n) <= k)%nat.
Proof. apply write_varint_le. Qed.

Lemma varint_gt (n : N) (k : nat) :
  (2 ^ (7 * N.of_nat k) <= n)%N -> (k < length (Writer.varint n))%nat.
Proof.
  apply write_varint_gt. rewrite N2Nat.id. apply N.size_gt.
Qed.

Lemma uint32_length (v : Z) : (1 <= length (Writer.uint32 v) <= 5)%nat.
Proof.
  unfold Writer.uint32. split; [apply varint_length|].
  apply varint_le; [lia|].
  pose proof (Z.mod_pos_bound v (2 ^ 32) eq_refl) as H.
  change (2 ^ (7 * N.of_nat 5))%N with 34359738368%N.
  change (2 ^ 32) with 4294967296 in *. lia.
Qed.

End Sizes.

(** X13: the bytes of a quantity on the wire.  [Writer.int32] writes
    between one and five bytes for a quantity that is not negative, one byte
    exactly for those below 128, and ten bytes for a negative one, which it
    extends to 64 bits.  An item therefore takes at least four bytes, and at
    most thirteen more than its product identifier when that is shorter than
    128 bytes. *)
Theorem X13_size_of_a_quantity (v : Z) :
  (0 <= v -> (1 <= length (Protobuf.Writer.int32 v) <= 5)%nat)
  /\ (0 <= v < 128 -> length (Protobuf.Writer.int32 v) = 1%nat)
  /\ (- 2 ^ 63 <= v < 0 -> length (Protobuf.Writer.int32 v) = 10%nat)
  /\ (forall p, - 2 ^ 63 <= v ->
        let size := length (Protobuf.CartItem_encode (mkCartItem p v)) in
        (4 <= size)%nat
        /\ ((String.length p < 128)%nat -> (size <= String.length p + 13)%nat)).
Proof.
  assert (Hneg : - 2 ^ 63 <= v < 0 -> length (Protobuf.Writer.int32 v) = 10%nat).
  { intros Hv. unfold Protobuf.Writer.int32.
    destruct (Z.ltb_spec v 0) as [_|H]; [|lia].
    assert (Hm : v mod 2 ^ 64 = v + 2 ^ 64).
    { symmetry. apply (Z.mod_unique _ _ (-1)); lia. }
    rewrite Hm.
    assert (length (Protobuf.Writer.varint (Z.to_N (v + 2 ^ 64))) <= 10)%nat.
    { apply varint_le; [lia|].
      change (2 ^ (7 * N.of_nat 10))%N with 1180591620717411303424%N. lia. }
    assert (9 < length (Protobuf.Writer.varint (Z.to_N (v + 2 ^ 64))))%nat.
    { apply varint_gt. change (2 ^ (7 * N.of_nat 9))%N with 9223372036854775808%N. lia. }
    lia. }
  assert (Hpos : 0 <= v -> (1 <= length (Protobuf.Writer.int32 v) <= 5)%nat).
  { intros Hv. unfold Protobuf.Writer.int32.
    destruct (Z.ltb_spec v 0) as [H|_]; [lia|]. apply uint32_length. }
  split; [exact Hpos|]. split; [|split; [exact Hneg|]].
  - intros Hv. unfold Protobuf.Writer.int32, Protobuf.Writer.uint32.
    destruct (Z.ltb_spec v 0) as [H|_]; [lia|].
    rewrite Z.mod_small by lia.
    assert (length (Protobuf.Writer.varint (Z.to_N v)) <= 1)%nat.
    { apply varint_le; [lia|]. change (2 ^ (7 * N.of_nat 1))%N with 128%N. lia. }
    pose proof (varint_length (Z.to_N v)). lia.
  - intros p Hv size. split; [apply CartItem_encode_length|]. intros Hp.
    unfold size, Protobuf.CartItem_encode, Protobuf.Writer.string.
    cbn [productId quantity].
    rewrite tag_1_2, tag_2_0, !List.length_app.
    assert (Hl : length (list_byte_of_string p) = String.length p).
    { clear. induction p as [|a p IH]; simpl; [done|]. by rewrite <- IH. }
    rewrite Hl.
    assert (length (Protobuf.Writer.varint (N.of_nat (String.length p))) <= 1)%nat.
    { apply varint_le; [lia|]. change (2 ^ (7 * N.of_nat 1))%N with 128%N. lia. }
    assert (length (Protobuf.Writer.int32 v) <= 10)%nat.
    { destruct (Z.lt_ge_cases v 0); [rewrite Hneg; lia | apply Hpos in H0; lia]. }
    simpl. lia.
Qed.

(** ** Start-up *)

Section Startup.

Lemma append_cons (c : ascii) (s t : string) : String c s +:+ t = String c (s +:+ t).
Proof. reflexivity. Qed.

Lemma append_nil (t : string) : EmptyString +:+ t = t.
Proof. reflexivity. Qed.

Lemma split_no_colon (s : string) : no_colon s -> Js.split ":" s = [s].
Proof.
  unfold no_colon. induction s as [|c s IH]; intros H; simpl in *; [done|].
  destruct (Ascii.eqb_spec c ":") as [->|Hc]; [tauto|].
  rewrite IH by tauto. done.
Qed.

Lemma split_append (h r : string) :
  no_colon h -> Js.split ":" (h +:+ ":" +:+ r) = h :: Js.split ":" r.
Proof.
  unfold no_colon. induction h as [|c h IH]; intros H.
  - rewrite append_nil, append_cons, append_nil. reflexivity.
  - rewrite append_cons. cbn [Js.split]. simpl in H.
    destruct (Ascii.eqb_spec c ":") as [->|Hc]; [tauto|].
    rewrite IH by tauto. done.
Qed.

Lemma split_head (s : string) :
  exists piece pieces, Js.split ":" s = piece :: pieces /\ no_colon piece.
Proof.
  induction s as [|c s (piece & pieces & IH & Hp)]; simpl.
  - exists EmptyString, []. split; [done|]. unfold no_colon. simpl. tauto.
  - destruct (Ascii.eqb_spec c ":") as [->|Hc].
    + eexists EmptyString, _. split; [done|]. unfold no_colon. simpl. tauto.
    + rewrite IH. exists (String c piece), pieces. split; [done|].
      unfold no_colon in *. simpl. intros [H|H]; [congruence | tauto].
Qed.

Lemma parseInt_undefined : Js.parseInt "undefined" = None.
Proof. reflexivity. Qed.

Lemma includes_validLogLevels (s : string) :
  Js.includes Config.validLogLevels s = true -> s ∈ Config.validLogLevels.
Proof.
  unfold Js.includes. intros H. apply existsb_exists in H as [x [Hin Heq]].
  apply String.eqb_eq in Heq. subst x. by apply list_elem_of_In.
Qed.

Lemma truthy_Some (v : option string) (s : string) :
  Js.truthy v = Some s <-> v = Some s /\ s <> EmptyString.
Proof.
  unfold Js.truthy. destruct v as [t|]; [|split; [done | by intros [? _]]].
  destruct (String.eqb_spec t EmptyString) as [->|Hne].
  - split; [done|]. intros [[= <-] H]. done.
  - split; [by intros [= <-] | by intros [[= <-] _]].
Qed.

Lemma truthy_None (v : option string) :
  Js.truthy v = None <-> v = None \/ v = Some EmptyString.
Proof.
  unfold Js.truthy. destruct v as [t|]; [|by split; [left|]].
  destruct (String.eqb_spec t EmptyString) as [->|Hne].
  - by split; [right|].
  - split; [done|]. intros [|[= ->]]; done.
Qed.

End Startup.

(** X14: the address that the constructor of [RedisStore] passes to the
    client.  The host is the text before the first [:] and the port is never
    zero: without a [:] the host is the whole address and the port is 6379,
    and so is a port that reads as zero or does not start with a number.
    Of an address with more than one [:] only the first two pieces are
    used.  The delay before a reconnection grows by 50 ms with each attempt
    and stays at 2000 ms from the fortieth on. *)
Theorem X14_redis_address_and_retry (redisAddr : string) :
  let options := RedisStoreConstructor.constructor redisAddr in
  Ioredis.port options <> 0
  /\ no_colon (Ioredis.host options)
  /\ (no_colon redisAddr ->
      Ioredis.host options = redisAddr /\ Ioredis.port options = 6379)
  /\ (forall host portStr rest, no_colon host -> no_colon portStr ->
      redisAddr = host +:+ ":" +:+ portStr +:+ ":" +:+ rest ->
      options = RedisStoreConstructor.constructor (host +:+ ":" +:+ portStr)
      /\ Ioredis.host options = host
      /\ Ioredis.port options
         = match Js.parseInt portStr with
           | Some 0 | None => 6379
           | Some n => n
           end)
  /\ (forall times, 0 <= times ->
      0 <= Ioredis.retryStrategy options times <= 2000
      /\ Ioredis.retryStrategy options times <= Ioredis.retryStrategy options (times + 1)
      /\ (times <= 40 -> Ioredis.retryStrategy options times = 50 * times)
      /\ (40 <= times -> Ioredis.retryStrategy options times = 2000)).
Proof.
  intros options. split; [|split; [|split; [|split]]].
  - unfold options, RedisStoreConstructor.constructor. cbn [Ioredis.port].
    destruct (Js.parseInt _) as [n|]; [|done]. unfold or_number.
    destruct (Z.eqb_spec n 0); [done | done].
  - unfold options, RedisStoreConstructor.constructor. cbn [Ioredis.host].
    destruct (split_head redisAddr) as (piece & pieces & -> & Hp). exact Hp.
  - intros H. unfold options, RedisStoreConstructor.constructor.
    rewrite split_no_colon by done. split; reflexivity.
  - intros host portStr rest Hh Hp ->. unfold options, RedisStoreConstructor.constructor.
    rewrite !split_append by done. rewrite (split_no_colon portStr) by done.
    split; [reflexivity|]. split; [reflexivity|].
    change (Ioredis.port _)
      with (match Js.parseInt portStr with Some n => or_number n 6379 | None => 6379 end).
    destruct (Js.parseInt portStr) as [n|]; [|done]. unfold or_number.
    destruct (Z.eqb_spec n 0) as [->|Hn]; [done|]. by destruct n.
  - intros times Ht. unfold options, RedisStoreConstructor.constructor.
    cbn [Ioredis.retryStrategy]. unfold RedisStoreConstructor.retryStrategy. lia.
Qed.

(** X15: what [loadConfig] accepts.  A configuration that it returns has a
    port between 1 and 65535, one of the four log levels in lower case, and
    a Redis address that is absent or not empty; the Redis address is absent
    exactly when [REDIS_ADDR] is unset or empty, and exactly then
    [initializeStorage] starts the service on an empty Local Store, and
    otherwise on the Remote Store.  With [PORT] and [LOG_LEVEL] unset or
    empty the port is 7070 and the level [info].  A failure is about
    [PORT], which is then set and not empty, or about [LOG_LEVEL], and its
    message quotes the text of that variable. *)
Theorem X15_configuration_is_validated (e : Config.env) :
  (forall config, Config.loadConfig e = Ok config ->
     1 <= Config.port config <= 65535
     /\ Config.logLevel config ∈ Config.validLogLevels
     /\ Config.redisAddr config <> Some EmptyString
     /\ (Config.redisAddr config = None
         <-> Config.REDIS_ADDR e = None \/ Config.REDIS_ADDR e = Some EmptyString)
     /\ (Config.redisAddr config = None
         -> Index.initializeStorage config = Index.Memory MemoryStore.init)
     /\ (forall redisAddr, Config.redisAddr config = Some redisAddr
         -> Index.initializeStorage config
            = Index.Redis (RedisStoreConstructor.constructor redisAddr)))
  /\ (Js.truthy (Config.PORT e) = None -> Js.truthy (Config.LOG_LEVEL e) = None ->
      exists config,
        Config.loadConfig e = Ok config
        /\ Config.port config = 7070 /\ Config.logLevel config = "info"%string)
  /\ (forall message, Config.loadConfig e = Throw message ->
      (exists text, Config.PORT e = Some text /\ text <> EmptyString
                    /\ message = Config.invalid_port text)
      \/ (exists logLevel, Config.LOG_LEVEL e = Some logLevel
                           /\ message = Config.invalid_log_level logLevel)).
Proof.
  split; [|split].
  - intros config. unfold Config.loadConfig.
    destruct (match Js.truthy (Config.PORT e) with
              | Some text => Js.parseInt text | None => Some 7070 end) as [port|];
      [|discriminate].
    destruct (Z.ltb_spec port 1) as [|Hlo]; [discriminate|].
    destruct (Z.gtb_spec port 65535) as [|Hhi]; [discriminate|]. cbn [orb].
    destruct (Js.includes _ _) eqn:Hl; [|discriminate]. cbn [negb].
    intros [= <-]. cbn [Config.port Config.logLevel Config.redisAddr].
    split; [lia|]. split; [by apply includes_validLogLevels|].
    split; [|split; [apply truthy_None|split]].
    + intros H. apply truthy_Some in H as [_ H]. done.
    + unfold Index.initializeStorage. cbn [Config.redisAddr]. intros ->. done.
    + intros redisAddr Hr. unfold Index.initializeStorage. cbn [Config.redisAddr].
      assert (Ht : Js.truthy (Some redisAddr) = Some redisAddr).
      { apply truthy_Some. split; [done|]. by apply truthy_Some in Hr as [_ ?]. }
      rewrite Hr. by rewrite Ht.
  - intros Hp Hl. unfold Config.loadConfig. rewrite Hp, Hl. simpl. eauto.
  - intros message. unfold Config.loadConfig.
    destruct (Js.truthy (Config.PORT e)) as [text|] eqn:Hp.
    + apply truthy_Some in Hp as [Hp Hne]. rewrite Hp. cbn [default].
      destruct (Js.parseInt text) as [port|]; [|intros [= <-]; left; eauto].
      destruct ((port <? 1) || (port >? 65535)); [intros [= <-]; left; eauto|].
      destruct (Js.includes _ _) eqn:Hi; [discriminate|]. cbn [negb].
      intros [= <-]. right.
      destruct (Js.truthy (Config.LOG_LEVEL e)) as [logLevel|] eqn:Hl;
        [|discriminate Hi].
      apply truthy_Some in Hl as [Hl _]. eauto.
    + cbn [orb Z.ltb Z.gtb Z.compare Pos.compare Pos.compare_cont].
      destruct (Js.includes _ _) eqn:Hi; [discriminate|]. cbn [negb].
      intros [= <-]. right.
      destruct (Js.truthy (Config.LOG_LEVEL e)) as [logLevel|] eqn:Hl;
        [|discriminate Hi].
      apply truthy_Some in Hl as [Hl _]. eauto.
Qed.

(** ** Two calls of [addItem] in flight *)

Lemma addItem_phases (u p : string) (q : Z) (c : Client.t) :
  RedisStore.addItem u p q c
  = match (RedisStore.getCart u c).1 with
    | Ok cart => addItem_write u p q cart (RedisStore.getCart u c).2
    | Throw e => (Throw (RedisStore.storage_error e), (RedisStore.getCart u c).2)
    end.
Proof.
  unfold RedisStore.addItem, addItem_write.
  by destruct (RedisStore.getCart u c) as [[cart|e] c1].
Qed.

Lemma addItem_write_ok (u p : string) (q : Z) (cart : Cart) (c : Client.t) :
  Client.fault c = None ->
  addItem_write u p q cart c
  = (Ok tt, written (RedisStore.getCartKey u) (Protobuf.encode (merged cart p q)) c).
Proof.
  intros Hf. unfold addItem_write.
  rewrite (serializeCart_encode (mkCart (userId cart) (merge p q (items cart)))).
  unfold Client.set, written. rewrite Hf. reflexivity.
Qed.

(** X16: [RedisStore.addItem] reads the cart, waits, and then writes the
    cart it has read with its item merged in.  When two calls for the same
    user have both read the cart before either writes, the write of the
    second replaces that of the first: the store ends as if the first call
    had not been made, although both calls return normally.  The cart then
    holds the addition of the second call only, where the two calls one
    after the other would have left both. *)
Theorem X16_interleaved_addItem_loses_one (u p1 p2 : string) (q1 q2 : Z)
    (c : Client.t) (cart : Cart) :
  Client.fault c = None ->
  (RedisStore.getCart u c).1 = Ok cart ->
  let first := addItem_write u p1 q1 cart (RedisStore.getCart u c).2 in
  let second := addItem_write u p2 q2 cart first.2 in
  first.1 = Ok tt /\ second.1 = Ok tt
  /\ second.2 = (RedisStore.addItem u p2 q2 c).2
  /\ (RedisStore.getCart u second.2).1 = Ok (wire (merged cart p2 q2))
  /\ (p1 <> p2 -> p1 ∉ productIds (items cart) ->
      forall cart', (RedisStore.getCart u second.2).1 = Ok cart' ->
                    p1 ∉ productIds (items cart'))
  /\ (RedisStore.getCart u
        (RedisStore.addItem u p2 q2 (RedisStore.addItem u p1 q1 c).2).2).1
     = Ok (wire (merged (wire (merged cart p1 q1)) p2 q2)).
Proof.
  intros Hf Hg first second. unfold second, first.
  rewrite redis_getCart_state. rewrite (addItem_write_ok u p1 q1 cart c Hf). cbn [fst snd].
  set (c1 := written _ _ c). assert (Hf1 : Client.fault c1 = None) by done.
  rewrite (addItem_write_ok u p2 q2 cart c1 Hf1). cbn [fst snd].
  rewrite (redis_addItem_ok u p2 q2 c cart Hf Hg). cbn [snd].
  assert (Hw : written (RedisStore.getCartKey u) (Protobuf.encode (merged cart p2 q2)) c1
               = written (RedisStore.getCartKey u) (Protobuf.encode (merged cart p2 q2)) c).
  { unfold c1, written. cbn [Client.keys Client.fault Client.pong].
    by rewrite insert_insert_eq. }
  rewrite Hw. split; [done|]. split; [done|]. split; [done|].
  rewrite redis_getCart_written by done. split; [done|]. split.
  - intros Hne Hnot cart' [= <-]. unfold wire. cbn [items merged].
    rewrite productIds_wire.
    intros Hin. apply elem_of_productIds_merge in Hin as [Heq|Hin]; [congruence | done].
  - rewrite (redis_addItem_ok u p1 q1 c cart Hf Hg). cbn [snd]. fold c1.
    assert (Hg1 : (RedisStore.getCart u c1).1 = Ok (wire (merged cart p1 q1))).
    { unfold c1. by rewrite redis_getCart_written. }
    rewrite (redis_addItem_ok u p2 q2 c1 _ Hf1 Hg1). cbn [snd].
    by rewrite redis_getCart_written.
Qed.

Lemma X16_witness :
  let c := run_all [AddItem "u1" "p0" 1] RedisStore.init in
  let first := addItem_write "u1" "p1" 2 (mkCart "u1" [mkCartItem "p0" 1]) c in
  let second := addItem_write "u1" "p2" 3 (mkCart "u1" [mkCartItem "p0" 1]) first.2 in
  (RedisStore.getCart "u1" second.2).1
  = Ok (mkCart "u1" [mkCartItem "p0" 1; mkCartItem "p2" 3])
  /\ (RedisStore.getCart "u1"
        (RedisStore.addItem "u1" "p2" 3 (RedisStore.addItem "u1" "p1" 2 c).2).2).1
     = Ok (mkCart "u1" [mkCartItem "p0" 1; mkCartItem "p1" 2; mkCartItem "p2" 3]).
Proof.
  intros c first second.
  destruct (X16_interleaved_addItem_loses_one "u1" "p1" "p2" 2 3 c
              (mkCart "u1" [mkCartItem "p0" 1])) as (_ & _ & _ & Hg & _ & Hs).
  - reflexivity.
  - vm_compute. reflexivity.
  - split.
    + etransitivity; [exact Hg|]. vm_compute. reflexivity.
    + etransitivity; [exact Hs|]. vm_compute. reflexivity.
Defined.
